(** * CiliaSim: the numerical kernel of [jit_functions.py]

    A shallow embedding of the numba-compiled kernel of CiliaSim
    ([polygon_area], [calculate_force_matrix],
    [calculate_boundary_reflection], [hexagonal_grid_layout]) and the
    properties its specification states about it.

    The kernel is written once, over an interface [Scalar] of the
    float64 operations it uses, and read at two instances:
    - [binary64]: Rocq's primitive IEEE 754 binary64 numbers, on which the
      definitions evaluate as the compiled code does;
    - [exact]: the real numbers, the arithmetic the geometric statements
      of the specification are meant in. *)

From Stdlib Require Import Uint63 PrimFloat SpecFloat FloatOps FloatAxioms.
From Stdlib Require Import ZArith List Bool Lia.
From Stdlib Require Import Reals Lra.
Import ListNotations.

Set Implicit Arguments.

(* A decimal literal denotes the nearest binary64 number, as in Python. *)
Set Warnings "-inexact-float".

(** ** Outcomes of a call

    The functions are compiled with [@njit], whose default error model is
    Python's: a scalar division by zero raises [ZeroDivisionError].  Array
    divisions follow NumPy and do not raise. *)

Inductive exn : Type :=
| ZeroDivisionError.

Inductive outcome (A : Type) : Type :=
| Returns (a : A)
| Raises (e : exn).

Arguments Returns {A} a.
Arguments Raises {A} e.

Definition bind {A B : Type} (m : outcome A) (k : A -> outcome B) : outcome B :=
  match m with
  | Returns a => k a
  | Raises e => Raises e
  end.

Notation "x <- m ;; k" := (bind m (fun x => k))
  (at level 61, m at next level, right associativity).

(** ** Machine integers

    The arguments and the integer arithmetic of the compiled functions are
    int64: a result is its value modulo [2^64], as a signed number. *)

Definition wrap64 (z : Z) : Z := ((z + 2 ^ 63) mod 2 ^ 64 - 2 ^ 63)%Z.

(** ** The float64 interface *)

Class Scalar (F : Type) : Type := {
  (** conversion of a machine integer, as in [float(k)] *)
  of_int : Z -> F;
  fadd : F -> F -> F;
  fsub : F -> F -> F;
  fmul : F -> F -> F;
  (** NumPy's division: total, no exception *)
  fdiv : F -> F -> F;
  fneg : F -> F;
  fabs : F -> F;
  fsqrt : F -> F;
  (** [x < y] *)
  flt : F -> F -> bool;
  (** [x == 0.0] *)
  fis_zero : F -> bool;
  (** [int(np.floor(x))] *)
  floor_int : F -> Z
}.

(** The functions [np.pi], [np.cos] and [np.sin]. *)
Class Trig (F : Type) : Type := {
  fpi : F;
  fcos : F -> F;
  fsin : F -> F
}.

(** *** IEEE 754 binary64 *)

Module Binary64.

Definition int64_min : Z := (- 2 ^ 63)%Z.
Definition int64_max : Z := (2 ^ 63 - 1)%Z.

(** An int64 as a float64: [of_uint63] rounds a magnitude below [2^63] to
    nearest, ties to even, and [-2^63] is a float64 itself. *)
Definition of_int (z : Z) : float :=
  let z := wrap64 z in
  if (z =? int64_min)%Z then (-9223372036854775808)%float
  else if (z <? 0)%Z then PrimFloat.opp (PrimFloat.of_uint63 (Uint63.of_Z (- z)))
  else PrimFloat.of_uint63 (Uint63.of_Z z).

(** [int(np.floor(x))]: the floor of a finite number that fits an int64.
    The compiled conversion of any other value (NaN, an infinity, a number
    out of range) is the x86-64 "integer indefinite" value [-2^63]. *)
Definition floor_int (x : float) : Z :=
  match Prim2SF x with
  | S754_zero _ => 0%Z
  | S754_finite s m e =>
      let v := Z.shiftl (if s then Z.neg m else Z.pos m) e in
      if ((int64_min <=? v) && (v <=? int64_max))%Z then v else int64_min
  | S754_infinity _ => int64_min
  | S754_nan => int64_min
  end.

End Binary64.

#[export] Instance binary64 : Scalar float := {
  of_int := Binary64.of_int;
  fadd := PrimFloat.add;
  fsub := PrimFloat.sub;
  fmul := PrimFloat.mul;
  fdiv := PrimFloat.div;
  fneg := PrimFloat.opp;
  fabs := PrimFloat.abs;
  fsqrt := PrimFloat.sqrt;
  flt := PrimFloat.ltb;
  fis_zero := PrimFloat.is_zero;
  floor_int := Binary64.floor_int
}.

(** *** Exact arithmetic *)

Module Exact.

Definition ltb (x y : R) : bool := if Rlt_dec x y then true else false.
Definition is_zero (x : R) : bool := if Req_dec_T x 0 then true else false.

End Exact.

#[export] Instance exact : Scalar R := {
  of_int := IZR;
  fadd := Rplus;
  fsub := Rminus;
  fmul := Rmult;
  fdiv := Rdiv;
  fneg := Ropp;
  fabs := Rabs;
  fsqrt := sqrt;
  flt := Exact.ltb;
  fis_zero := Exact.is_zero;
  floor_int := Zfloor
}.

#[export] Instance exact_trig : Trig R := {
  fpi := PI;
  fcos := cos;
  fsin := sin
}.

Section Kernel.

Context {F : Type} {SF : Scalar F}.

Definition f0 : F := of_int 0.

(** A NumPy array of shape (2,), and the operations on it element by
    element. *)
Definition point : Type := (F * F)%type.

Definition padd (p q : point) : point := (fadd (fst p) (fst q), fadd (snd p) (snd q)).
Definition psub (p q : point) : point := (fsub (fst p) (fst q), fsub (snd p) (snd q)).
(** [k * p] and [p / k] for a scalar [k] *)
Definition pscale (k : F) (p : point) : point := (fmul k (fst p), fmul k (snd p)).
Definition pdiv (p : point) (k : F) : point := (fdiv (fst p) k, fdiv (snd p) k).
(** [np.dot] and [np.linalg.norm] on arrays of shape (2,); the norm is the
    square root of the sum of the squares. *)
Definition dot (p q : point) : F := fadd (fmul (fst p) (fst q)) (fmul (snd p) (snd q)).
Definition norm (p : point) : F := fsqrt (dot p p).

(** Scalar division under the Python error model. *)
Definition py_div (x d : F) : outcome F :=
  if fis_zero d then Raises ZeroDivisionError else Returns (fdiv x d).

(** Scalar division by an int64, which converts to [0.0] exactly when it
    is [0]. *)
Definition py_div_int (x : F) (k : Z) : outcome F :=
  if (k =? 0)%Z then Raises ZeroDivisionError else Returns (fdiv x (of_int k)).

(** *** [polygon_area] *)

(** [shifted[:-1] = v[1:]; shifted[-1] = v[0]], for an array that is not
    empty.  On an empty array the source writes [shifted[-1]] and reads
    [v[0]] out of bounds, which the compiled code does not check: the value
    here for [[]] stands for no behaviour of the source. *)
Definition shifted (v : list F) : list F :=
  match v with
  | [] => []
  | h :: t => t ++ [h]
  end.

(** [np.sum], from the left *)
Definition np_sum (v : list F) : F := fold_left fadd v f0.

(** The literal [0.5], and the quotient [1 / 2]: the same number. *)
Definition half : F := fdiv (of_int 1) (of_int 2).

Definition polygon_area (vertices : list point) : F :=
  let x := map fst vertices in
  let y := map snd vertices in
  let shifted_x := shifted x in
  let shifted_y := shifted y in
  let terms :=
    map (fun q => fsub (fmul (fst (fst q)) (snd (snd q))) (fmul (snd (fst q)) (fst (snd q))))
        (combine (combine x y) (combine shifted_x shifted_y)) in
  fmul half (fabs (np_sum terms)).

(** *** [calculate_boundary_reflection] *)

Section Reflection.

(** The contents of the array [np.empty_like(a)] allocates and never
    writes: whatever the memory held. *)
Variable empty_like : point -> point.

Definition calculate_boundary_reflection (a b c : point) : outcome (bool * point) :=
  let ac := psub c a in
  let bc := psub c b in
  let ac_norm := norm ac in
  let bc_norm := norm bc in
  let ac_dot_bc := dot ac bc in
  angle_cos <- py_div ac_dot_bc (fmul ac_norm bc_norm) ;;
  if flt angle_cos f0 then
    let edge_vector := psub b a in
    let edge_norm := norm edge_vector in
    let edge_unit_vector := pdiv edge_vector edge_norm in
    let projection_length := dot ac edge_unit_vector in
    let projection_vector := pscale projection_length edge_unit_vector in
    let reflected_point := psub (pscale (of_int 2) (padd a projection_vector)) c in
    Returns (true, reflected_point)
  else Returns (false, empty_like a).

End Reflection.

(** *** [hexagonal_grid_layout] *)

(** [range(lo, hi)] *)
Definition range (lo hi : Z) : list Z :=
  map (fun k => (lo + Z.of_nat k)%Z) (seq 0 (Z.to_nat (hi - lo))).

(** A [for] loop whose body may raise. *)
Fixpoint for_each {A S : Type} (l : list A) (body : A -> S -> outcome S) (s : S)
  : outcome S :=
  match l with
  | [] => Returns s
  | a :: l' => s' <- body a s ;; for_each l' body s'
  end.

(** [int(np.floor(1 / 2 + np.sqrt(12 * num_cells - 3) / 6))]; the divisors are
    non-zero literals, and [12 * num_cells - 3] is int64 arithmetic. *)
Definition num_rings (num_cells : Z) : Z :=
  floor_int (fadd half (fdiv (fsqrt (of_int (wrap64 (12 * num_cells - 3)))) (of_int 6))).

Section Layout.

Context {TF : Trig F}.

(** The body of the inner loop: the point [j] of ring [i]. *)
Definition ring_point (cx cy : F) (i j : Z) : outcome point :=
  angle <- py_div_int (fmul (of_int j) fpi) (3 * i) ;;
  angle <- (if (i mod 2 =? 0)%Z
            then (step <- py_div_int fpi (3 * i) ;; Returns (fadd angle step))
            else Returns angle) ;;
  let x := fadd cx (fmul (of_int i) (fcos angle)) in
  let y := fadd cy (fmul (of_int i) (fsin angle)) in
  Returns (x, y).

Definition hexagonal_grid_layout (num_cells x y : Z) : outcome (list point) :=
  let num_rings := num_rings num_cells in
  let cx := fdiv (of_int x) (of_int 2) in
  let cy := fdiv (of_int y) (of_int 2) in
  let points := [(cx, cy)] in
  for_each (range 1 (num_rings + 1))
    (fun i points =>
       for_each (range 0 (6 * i))
         (fun j points => p <- ring_point cx cy i j ;; Returns (points ++ [p]))
         points)
    points.

End Layout.

(** *** [calculate_force_matrix] *)

(** A two-dimensional array, by rows. *)
Definition matrix (A : Type) : Type := list (list A).

Definition zeros {A : Type} (z : A) (n m : nat) : matrix A := repeat (repeat z m) n.

Definition mget {A : Type} (d : A) (M : matrix A) (i j : nat) : A :=
  nth j (nth i M []) d.

(** The element [k] of a list replaced by its image; a list too short is
    left as it is. *)
Fixpoint upd {A : Type} (k : nat) (f : A -> A) (l : list A) : list A :=
  match l, k with
  | [], _ => []
  | a :: l', O => f a :: l'
  | a :: l', S k' => a :: upd k' f l'
  end.

(** [M[i, j] = v] *)
Definition mset {A : Type} (M : matrix A) (i j : nat) (v : A) : matrix A :=
  upd i (upd j (fun _ => v)) M.

(** [M[i, js] = vs], [M[i, js] = v] and [M[js, i] = v] for an index
    array [js] *)
Definition assign_row {A : Type} (M : matrix A) (i : nat) (js : list nat) (vs : list A)
  : matrix A :=
  fold_left (fun M' jv => mset M' i (fst jv) (snd jv)) (combine js vs) M.

Definition assign_row_const {A : Type} (M : matrix A) (i : nat) (js : list nat) (v : A)
  : matrix A :=
  fold_left (fun M' j => mset M' i j v) js M.

Definition assign_col_const {A : Type} (M : matrix A) (js : list nat) (i : nat) (v : A)
  : matrix A :=
  fold_left (fun M' j => mset M' j i v) js M.

(** [np.nonzero(row)[0]]: the indices of the true entries, increasing. *)
Definition nonzero (row : list bool) : list nat :=
  filter (fun j => nth j row false) (seq 0 (length row)).

(** The four work matrices of [calculate_force_matrix]. *)
Record work : Type := {
  spring_matrix : matrix F;
  pressure_matrix : matrix F;
  distance_matrix : matrix F;
  unit_vector_matrix : matrix point
}.

Definition p0 : point := (f0, f0).

(** The literal [0.1]: in binary64 the number nearest to one tenth, which
    the correctly rounded quotient is. *)
Definition tenth : F := fdiv (of_int 1) (of_int 10).

Section ForceMatrix.

Variable num_cells : nat.
Variable target_spring_length critical_length_delta : F.
Variable cell_points : list point.
Variable cell_types : list Z.
Variable target_areas : list F.
Variable voronoi_vertices : list (list point).
Variable adjacency_matrix : matrix bool.

(** The body of the loop over the rows.  On an input of matching dimensions
    every index below is within its array; on another input the source
    raises [IndexError] ([voronoi_vertices[i]] on a list too short) or reads
    out of bounds, and the default of [nth] stands for no behaviour of the
    source. *)
Definition row_step (i : nat) (w : work) : outcome work :=
  let neighbours := nonzero (nth i adjacency_matrix []) in
  if (length neighbours =? 0)%nat then Returns w else
  let differences := map (fun j => psub (nth j cell_points p0) (nth i cell_points p0)) neighbours in
  let distances := map (fun d => fsqrt (fadd (fmul (fst d) (fst d)) (fmul (snd d) (snd d)))) differences in
  let unit_vectors := map (fun dd => pdiv (fst dd) (snd dd)) (combine differences distances) in
  let distance_matrix := assign_row (distance_matrix w) i neighbours distances in
  let unit_vector_matrix := assign_row (unit_vector_matrix w) i neighbours unit_vectors in
  let spring_matrix :=
    assign_row (spring_matrix w) i neighbours
               (map (fun d => fsub target_spring_length d) distances) in
  if negb (nth i cell_types 0 =? 1)%Z then
    let area := polygon_area (nth i voronoi_vertices []) in
    split_area_difference <-
      py_div_int (fsub (nth i target_areas f0) area) (Z.of_nat (length neighbours)) ;;
    let pressure_matrix := assign_row_const (pressure_matrix w) i neighbours split_area_difference in
    let pressure_matrix := assign_col_const pressure_matrix neighbours i split_area_difference in
    Returns {| spring_matrix := spring_matrix; pressure_matrix := pressure_matrix;
               distance_matrix := distance_matrix; unit_vector_matrix := unit_vector_matrix |}
  else
    Returns {| spring_matrix := spring_matrix; pressure_matrix := pressure_matrix w;
               distance_matrix := distance_matrix; unit_vector_matrix := unit_vector_matrix |}.

Definition initial_work : work :=
  {| spring_matrix := zeros f0 num_cells num_cells;
     pressure_matrix := zeros f0 num_cells num_cells;
     distance_matrix := zeros f0 num_cells num_cells;
     unit_vector_matrix := zeros p0 num_cells num_cells |}.

(** The loop [for i in range(num_cells)]. *)
Definition assemble_rows : outcome work :=
  for_each (seq 0 num_cells) row_step initial_work.

(** [spring_matrix[cell_types == 1] *= 0.1] *)
Definition damp_boundary (S : matrix F) : matrix F :=
  map (fun ir => if (nth (fst ir) cell_types 0 =? 1)%Z
                 then map (fun s => fmul s tenth) (snd ir)
                 else snd ir)
      (combine (seq 0 (length S)) S).

(** One element of [np.clip(_, lo, None)] *)
Definition clip_lower (lo s : F) : F := if flt s lo then lo else s.

(** [np.clip(spring_matrix, -critical_length_delta, None, out=spring_matrix)] *)
Definition clip_spring (S : matrix F) : matrix F :=
  map (map (clip_lower (fneg critical_length_delta))) S.

(** [(spring_matrix + pressure_matrix)[..., None] * unit_vector_matrix] *)
Definition force_of (S P : matrix F) (U : matrix point) : matrix point :=
  map (fun i =>
         map (fun j => pscale (fadd (mget f0 S i j) (mget f0 P i j)) (mget p0 U i j))
             (seq 0 num_cells))
      (seq 0 num_cells).

(** The spring matrix as line 78 reads it. *)
Definition final_spring (w : work) : matrix F :=
  clip_spring (damp_boundary (spring_matrix w)).

Definition calculate_force_matrix : outcome (matrix point * matrix F) :=
  w <- assemble_rows ;;
  let spring_matrix := final_spring w in
  let force_matrix := force_of spring_matrix (pressure_matrix w) (unit_vector_matrix w) in
  Returns (force_matrix, distance_matrix w).

End ForceMatrix.

(** *** [polygon_perimeter] *)

(** [a % b] on integers that are not negative: a zero divisor raises. *)
Definition py_mod (a b : nat) : outcome nat :=
  if (b =? 0)%nat then Raises ZeroDivisionError else Returns (a mod b).

Definition polygon_perimeter (vertices : list point) : outcome F :=
  let n := length vertices in
  for_each (seq 0 n)
    (fun i total =>
       j <- py_mod (i + 1) n ;;
       let dx := fsub (fst (nth j vertices p0)) (fst (nth i vertices p0)) in
       let dy := fsub (snd (nth j vertices p0)) (snd (nth i vertices p0)) in
       Returns (fadd total (fsqrt (fadd (fmul dx dx) (fmul dy dy)))))
    f0.

End Kernel.

Arguments point F : clear implicits.
Arguments work F : clear implicits.

(** * Properties *)

(** ** Arrays *)

Section Arrays.

Context {A : Type}.

Lemma upd_length (k : nat) (f : A -> A) (l : list A) :
  length (upd k f l) = length l.
Proof.
  revert k; induction l as [|a l IH]; intros [|k]; simpl; auto.
Qed.

Lemma nth_upd (d : A) (f : A -> A) (l : list A) :
  forall k a,
    nth a (upd k f l) d =
    if (a =? k)%nat && (k <? length l)%nat then f (nth a l d) else nth a l d.
Proof.
  induction l as [|x l IH]; intros [|k] [|a]; simpl; try reflexivity.
  - destruct (a =? k)%nat; reflexivity.
  - rewrite IH. reflexivity.
Qed.

(** An array of shape (n, m). *)
Definition shape (n m : nat) (M : matrix A) : Prop :=
  length M = n /\ Forall (fun r => length r = m) M.

Lemma shape_zeros (z : A) (n m : nat) : shape n m (zeros z n m).
Proof.
  split; unfold zeros.
  - apply repeat_length.
  - apply Forall_forall. intros r Hr. apply repeat_spec in Hr. subst r.
    apply repeat_length.
Qed.

Lemma shape_row (n m : nat) (M : matrix A) (i : nat) :
  shape n m M -> (i < n)%nat -> length (nth i M []) = m.
Proof.
  intros [Hn Hm] Hi. rewrite Forall_forall in Hm. apply Hm, nth_In. lia.
Qed.

Lemma Forall_upd (P : A -> Prop) (f : A -> A) (l : list A) (k : nat) :
  (forall a, P a -> P (f a)) -> Forall P l -> Forall P (upd k f l).
Proof.
  intros Hf. revert k. induction l as [|a l IH]; intros k Hl; simpl.
  - destruct k; constructor.
  - inversion Hl; subst. destruct k; constructor; auto.
Qed.

End Arrays.

Section Matrices.

Context {A : Type}.

Lemma shape_mset (n m : nat) (M : matrix A) (i j : nat) (v : A) :
  shape n m M -> shape n m (mset M i j v).
Proof.
  intros [Hn Hm]. split; unfold mset.
  - rewrite upd_length. exact Hn.
  - apply Forall_upd; [|exact Hm].
    intros r Hr. rewrite upd_length. exact Hr.
Qed.

Lemma mget_mset (d : A) (n m : nat) (M : matrix A) (i j : nat) (v : A) (a b : nat) :
  shape n m M ->
  mget d (mset M i j v) a b =
  if (a =? i)%nat && (b =? j)%nat && (i <? n)%nat && (j <? m)%nat then v
  else mget d M a b.
Proof.
  intros HM. unfold mget, mset.
  rewrite nth_upd. destruct HM as [Hn Hm].
  destruct (Nat.eqb_spec a i) as [->|Hai]; simpl; [|reflexivity].
  rewrite Hn. destruct (Nat.ltb_spec i n) as [Hi|Hi]; simpl.
  - rewrite nth_upd. rewrite (shape_row (conj Hn Hm) Hi).
    destruct (b =? j)%nat; simpl; [|reflexivity].
    destruct (j <? m)%nat; reflexivity.
  - rewrite andb_false_r. reflexivity.
Qed.

Lemma mget_zeros (d : A) (n m a b : nat) : mget d (zeros d n m) a b = d.
Proof.
  unfold mget, zeros.
  destruct (Nat.lt_ge_cases a n) as [Ha|Ha].
  - rewrite (repeat_spec n (repeat d m) (nth a (repeat (repeat d m) n) []))
      by (apply nth_In; rewrite repeat_length; exact Ha).
    destruct (Nat.lt_ge_cases b m) as [Hb|Hb].
    + apply repeat_spec with (n := m). apply nth_In. rewrite repeat_length. exact Hb.
    + apply nth_overflow. rewrite repeat_length. exact Hb.
  - rewrite (nth_overflow (repeat (repeat d m) n)) by (rewrite repeat_length; exact Ha).
    destruct b; reflexivity.
Qed.

Lemma shape_assign_row (n m : nat) (i : nat) (js : list nat) (vs : list A) :
  forall M : matrix A, shape n m M -> shape n m (assign_row M i js vs).
Proof.
  unfold assign_row. generalize (combine js vs) as l.
  induction l as [|[j v] l IH]; intros M HM; simpl; [exact HM|].
  apply IH, shape_mset, HM.
Qed.

Lemma shape_assign_row_const (n m : nat) (i : nat) (js : list nat) (v : A) :
  forall M : matrix A, shape n m M -> shape n m (assign_row_const M i js v).
Proof.
  unfold assign_row_const.
  induction js as [|j js IH]; intros M HM; simpl; [exact HM|].
  apply IH, shape_mset, HM.
Qed.

Lemma shape_assign_col_const (n m : nat) (i : nat) (js : list nat) (v : A) :
  forall M : matrix A, shape n m M -> shape n m (assign_col_const M js i v).
Proof.
  unfold assign_col_const.
  induction js as [|j js IH]; intros M HM; simpl; [exact HM|].
  apply IH, shape_mset, HM.
Qed.

(** [M[i, js] = vs] writes row [i] at the columns [js] and nowhere else. *)
Lemma mget_assign_row_other (d : A) (n m : nat) (i : nat) (js : list nat) (vs : list A)
      (a b : nat) :
  a <> i \/ ~ In b js ->
  forall M : matrix A, shape n m M -> mget d (assign_row M i js vs) a b = mget d M a b.
Proof.
  intros Hab. unfold assign_row.
  revert vs. induction js as [|j js IH]; intros vs M HM; simpl; [reflexivity|].
  destruct vs as [|v vs]; simpl; [reflexivity|].
  rewrite IH.
  - rewrite (mget_mset d _ _ _ _ _ HM).
    destruct (Nat.eqb_spec a i) as [->|]; simpl; [|reflexivity].
    destruct (Nat.eqb_spec b j) as [->|]; simpl; [|reflexivity].
    exfalso. destruct Hab as [H|H]; [congruence | apply H; left; reflexivity].
  - destruct Hab as [H|H]; [left; exact H | right; intros Hin; apply H; right; exact Hin].
  - apply shape_mset, HM.
Qed.

Lemma mget_assign_row_const (d : A) (n m : nat) (i : nat) (js : list nat) (v : A)
      (a b : nat) :
  forall M : matrix A, shape n m M ->
  mget d (assign_row_const M i js v) a b =
  if (a =? i)%nat && existsb (Nat.eqb b) js && (i <? n)%nat && (b <? m)%nat then v
  else mget d M a b.
Proof.
  unfold assign_row_const.
  induction js as [|j js IH]; intros M HM; simpl.
  - rewrite andb_false_r. reflexivity.
  - rewrite IH by (apply shape_mset, HM).
    rewrite (mget_mset d _ _ _ _ _ HM).
    destruct (Nat.eqb_spec a i) as [->|]; simpl; [|reflexivity].
    destruct (Nat.eqb_spec b j) as [->|]; simpl.
    + destruct (existsb (Nat.eqb j) js); simpl; [destruct (i <? n)%nat, (j <? m)%nat; reflexivity|].
      reflexivity.
    + reflexivity.
Qed.

Lemma mget_assign_col_const (d : A) (n m : nat) (i : nat) (js : list nat) (v : A)
      (a b : nat) :
  forall M : matrix A, shape n m M ->
  mget d (assign_col_const M js i v) a b =
  if (b =? i)%nat && existsb (Nat.eqb a) js && (a <? n)%nat && (i <? m)%nat then v
  else mget d M a b.
Proof.
  unfold assign_col_const.
  induction js as [|j js IH]; intros M HM; simpl.
  - rewrite andb_false_r. reflexivity.
  - rewrite IH by (apply shape_mset, HM).
    rewrite (mget_mset d _ _ _ _ _ HM).
    destruct (Nat.eqb_spec a j) as [Haj|Haj]; simpl.
    + subst a. destruct (Nat.eqb_spec b i) as [Hbi|Hbi]; simpl; [|reflexivity].
      destruct (existsb (Nat.eqb j) js); simpl; [destruct (j <? n)%nat, (i <? m)%nat; reflexivity|].
      reflexivity.
    + reflexivity.
Qed.

End Matrices.

Section Lookups.

Context {A : Type}.

(** [M[i, j]] when the indices are within the array *)
Definition mlookup (M : matrix A) (i j : nat) : option A :=
  match nth_error M i with
  | Some r => nth_error r j
  | None => None
  end.

Lemma mlookup_shape (d : A) (n m : nat) (M : matrix A) (i j : nat) :
  shape n m M -> (i < n)%nat -> (j < m)%nat -> mlookup M i j = Some (mget d M i j).
Proof.
  intros HM Hi Hj. unfold mlookup, mget.
  assert (Hr := shape_row HM Hi). destruct HM as [Hn _].
  rewrite (nth_error_nth' M [] (n := i)) by lia.
  apply nth_error_nth'. lia.
Qed.

Lemma nth_error_combine_seq (l : list A) :
  forall k i,
    nth_error (combine (seq k (length l)) l) i
    = option_map (fun r => ((k + i)%nat, r)) (nth_error l i).
Proof.
  induction l as [|a l IH]; intros k [|i]; simpl; try reflexivity.
  - rewrite Nat.add_0_r. reflexivity.
  - rewrite IH. rewrite Nat.add_succ_r. reflexivity.
Qed.

Lemma nth_map_seq (f : nat -> A) (d : A) (n i : nat) :
  nth i (map f (seq 0 n)) d = if (i <? n)%nat then f i else d.
Proof.
  destruct (Nat.ltb_spec i n) as [Hi|Hi].
  - rewrite (nth_indep _ d (f 0%nat)) by (rewrite length_map, length_seq; exact Hi).
    rewrite map_nth, seq_nth by exact Hi. reflexivity.
  - apply nth_overflow. rewrite length_map, length_seq. exact Hi.
Qed.

End Lookups.

Lemma In_nonzero (row : list bool) (b : nat) :
  In b (nonzero row) -> nth b row false = true.
Proof. unfold nonzero. intros H. apply filter_In in H. apply H. Qed.

Section Stages.

Context {F : Type} {SF : Scalar F}.

Lemma mlookup_clip_spring (critical_length_delta : F) (S : matrix F) (i j : nat) :
  mlookup (clip_spring critical_length_delta S) i j
  = option_map (clip_lower (fneg critical_length_delta)) (mlookup S i j).
Proof.
  unfold mlookup, clip_spring. rewrite nth_error_map.
  destruct (nth_error S i) as [r|]; simpl; [|reflexivity].
  apply nth_error_map.
Qed.

Lemma mlookup_damp_boundary (cell_types : list Z) (S : matrix F) (i j : nat) :
  mlookup (damp_boundary cell_types S) i j
  = option_map (fun s => if (nth i cell_types 0 =? 1)%Z then fmul s tenth else s)
               (mlookup S i j).
Proof.
  unfold mlookup, damp_boundary. rewrite nth_error_map, nth_error_combine_seq.
  destruct (nth_error S i) as [r|]; simpl; [|reflexivity].
  destruct (nth i cell_types 0%Z =? 1)%Z.
  - apply nth_error_map.
  - destruct (nth_error r j); reflexivity.
Qed.

Lemma mget_force_of (num_cells : nat) (S P : matrix F) (U : matrix (point F)) (i j : nat) :
  mget p0 (force_of num_cells S P U) i j
  = if (i <? num_cells)%nat && (j <? num_cells)%nat
    then pscale (fadd (mget f0 S i j) (mget f0 P i j)) (mget p0 U i j)
    else p0.
Proof.
  unfold force_of, mget at 1. rewrite nth_map_seq.
  destruct (i <? num_cells)%nat; simpl.
  - rewrite nth_map_seq. reflexivity.
  - destruct j; reflexivity.
Qed.

End Stages.

(** ** The rows of [calculate_force_matrix] *)

Section Rows.

Context {F : Type} {SF : Scalar F}.

Variable num_cells : nat.
Variable target_spring_length critical_length_delta : F.
Variable cell_points : list (point F).
Variable cell_types : list Z.
Variable target_areas : list F.
Variable voronoi_vertices : list (list (point F)).
Variable adjacency_matrix : matrix bool.

(** What row [i] computes: the names are those of the loop body. *)
Definition neighbours_of (i : nat) : list nat := nonzero (nth i adjacency_matrix []).

Definition differences_of (i : nat) : list (point F) :=
  map (fun j => psub (nth j cell_points p0) (nth i cell_points p0)) (neighbours_of i).

Definition distances_of (i : nat) : list F :=
  map (fun d => fsqrt (fadd (fmul (fst d) (fst d)) (fmul (snd d) (snd d)))) (differences_of i).

Definition unit_vectors_of (i : nat) : list (point F) :=
  map (fun dd => pdiv (fst dd) (snd dd)) (combine (differences_of i) (distances_of i)).

Definition springs_of (i : nat) : list F :=
  map (fun d => fsub target_spring_length d) (distances_of i).

Definition split_area_difference_of (i : nat) : F :=
  fdiv (fsub (nth i target_areas f0) (polygon_area (nth i voronoi_vertices [])))
       (of_int (Z.of_nat (length (neighbours_of i)))).

Definition pressure_after (i : nat) (P : matrix F) : matrix F :=
  if (nth i cell_types 0 =? 1)%Z then P
  else assign_col_const
         (assign_row_const P i (neighbours_of i) (split_area_difference_of i))
         (neighbours_of i) i (split_area_difference_of i).

Definition row_result (i : nat) (w : work F) : work F :=
  {| spring_matrix := assign_row (spring_matrix w) i (neighbours_of i) (springs_of i);
     pressure_matrix := pressure_after i (pressure_matrix w);
     distance_matrix := assign_row (distance_matrix w) i (neighbours_of i) (distances_of i);
     unit_vector_matrix :=
       assign_row (unit_vector_matrix w) i (neighbours_of i) (unit_vectors_of i) |}.

Local Abbreviation step :=
  (row_step target_spring_length cell_points cell_types target_areas
            voronoi_vertices adjacency_matrix).

(** A row never raises: the one scalar division, by the number of
    neighbours, is behind the guard that skips a row without any. *)
Lemma row_step_returns (i : nat) (w : work F) : step i w = Returns (row_result i w).
Proof.
  unfold row_step, row_result, pressure_after, springs_of, unit_vectors_of,
    distances_of, differences_of, split_area_difference_of, neighbours_of.
  destruct (nonzero (nth i adjacency_matrix [])) as [|j js] eqn:E.
  - simpl. destruct w. simpl. destruct (nth i cell_types 0%Z =? 1)%Z; reflexivity.
  - cbn [length Nat.eqb].
    destruct (nth i cell_types 0%Z =? 1)%Z; cbn [negb]; [reflexivity|].
    unfold py_div_int.
    destruct (Z.eqb_spec (Z.of_nat (S (length js))) 0) as [H|H]; [lia|].
    reflexivity.
Qed.

Definition rows_result (l : list nat) (w : work F) : work F :=
  fold_left (fun w i => row_result i w) l w.

Lemma for_each_row_step (l : list nat) :
  forall w, for_each l step w = Returns (rows_result l w).
Proof.
  induction l as [|i l IH]; intros w; simpl; [reflexivity|].
  rewrite row_step_returns. simpl. apply IH.
Qed.

Lemma rows_result_invariant (P : work F -> Prop) (l : list nat) :
  (forall i w, P w -> P (row_result i w)) ->
  forall w, P w -> P (rows_result l w).
Proof.
  intros Hstep. unfold rows_result.
  induction l as [|i l IH]; intros w Hw; simpl; auto.
Qed.

(** The loop returns, whatever the input. *)
Lemma assemble_rows_returns :
  assemble_rows num_cells target_spring_length cell_points cell_types target_areas
                voronoi_vertices adjacency_matrix
  = Returns (rows_result (seq 0 num_cells) (initial_work num_cells)).
Proof. apply for_each_row_step. Qed.

(** *** Shapes *)

Definition work_shape (w : work F) : Prop :=
  shape num_cells num_cells (spring_matrix w) /\
  shape num_cells num_cells (pressure_matrix w) /\
  shape num_cells num_cells (distance_matrix w) /\
  shape num_cells num_cells (unit_vector_matrix w).

Lemma work_shape_initial : work_shape (initial_work num_cells).
Proof. split; [|split; [|split]]; apply shape_zeros. Qed.

Lemma work_shape_row (i : nat) (w : work F) : work_shape w -> work_shape (row_result i w).
Proof.
  intros (HS & HP & HD & HU). unfold work_shape, row_result; simpl.
  split; [|split; [|split]]; try (apply shape_assign_row; assumption).
  unfold pressure_after. destruct (nth i cell_types 0%Z =? 1)%Z; [assumption|].
  apply shape_assign_col_const, shape_assign_row_const, HP.
Qed.

Lemma work_shape_rows (l : list nat) : work_shape (rows_result l (initial_work num_cells)).
Proof.
  apply rows_result_invariant; [apply work_shape_row | apply work_shape_initial].
Qed.

(** *** The pressure matrix is symmetric *)

Definition symmetric {A : Type} (d : A) (M : matrix A) : Prop :=
  forall a b, mget d M a b = mget d M b a.

Lemma pressure_after_symmetric (i : nat) (P : matrix F) :
  shape num_cells num_cells P -> symmetric f0 P -> symmetric f0 (pressure_after i P).
Proof.
  intros HP Hsym. unfold pressure_after.
  destruct (nth i cell_types 0%Z =? 1)%Z; [exact Hsym|].
  intros a b.
  rewrite !(mget_assign_col_const f0 _ _ _ _ _
              (shape_assign_row_const _ _ _ HP)).
  rewrite !(mget_assign_row_const f0 _ _ _ _ _ HP).
  rewrite (Hsym a b).
  destruct (a =? i)%nat, (b =? i)%nat,
    (existsb (Nat.eqb a) (neighbours_of i)), (existsb (Nat.eqb b) (neighbours_of i)),
    (a <? num_cells)%nat, (b <? num_cells)%nat, (i <? num_cells)%nat; reflexivity.
Qed.

Lemma symmetric_zeros (n : nat) : symmetric f0 (zeros (f0 (F:=F)) n n).
Proof. intros a b. rewrite !mget_zeros. reflexivity. Qed.

Lemma pressure_symmetric_rows (l : list nat) :
  symmetric f0 (pressure_matrix (rows_result l (initial_work num_cells))).
Proof.
  apply (rows_result_invariant
           (fun w => work_shape w /\ symmetric f0 (pressure_matrix w))).
  - intros i w [Hw Hs]. split; [apply work_shape_row, Hw|].
    simpl. apply pressure_after_symmetric; [apply Hw | exact Hs].
  - split; [apply work_shape_initial | apply symmetric_zeros].
Qed.

(** *** Nothing is written off the edges *)

Definition off_edges_zero (w : work F) : Prop :=
  forall a b, mget false adjacency_matrix a b = false ->
              mget f0 (distance_matrix w) a b = f0 /\
              mget p0 (unit_vector_matrix w) a b = p0.

Lemma off_edge_not_written (i a b : nat) :
  mget false adjacency_matrix a b = false -> a <> i \/ ~ In b (neighbours_of i).
Proof.
  intros Hab. destruct (Nat.eq_dec a i) as [->|Hai]; [right | left; exact Hai].
  intros Hin. apply In_nonzero in Hin. unfold mget in Hab. congruence.
Qed.

Lemma off_edges_zero_row (i : nat) (w : work F) :
  work_shape w -> off_edges_zero w -> off_edges_zero (row_result i w).
Proof.
  intros (_ & _ & HD & HU) Hz a b Hab. simpl.
  assert (Hi := off_edge_not_written i _ _ Hab).
  rewrite !mget_assign_row_other with (n := num_cells) (m := num_cells) by assumption.
  apply Hz, Hab.
Qed.

Lemma off_edges_zero_rows (l : list nat) :
  off_edges_zero (rows_result l (initial_work num_cells)).
Proof.
  apply (rows_result_invariant (fun w => work_shape w /\ off_edges_zero w)).
  - intros i w [Hw Hz]. split; [apply work_shape_row, Hw | apply off_edges_zero_row; assumption].
  - split; [apply work_shape_initial|].
    intros a b _. simpl. rewrite !mget_zeros. split; reflexivity.
Qed.

(** *** The spring matrix does not read the cell types *)



End Rows.

(** ** [calculate_force_matrix] *)

Definition unit_square : list (point float) := [(0, 0); (1, 0); (1, 1); (0, 1)]%float.

(** Two cells, each the other's neighbour. *)
Definition adjacent_pair : matrix bool := [[false; true]; [true; false]].

Lemma adjacent_pair_symmetric : symmetric false adjacent_pair.
Proof.
  intros a b. unfold mget.
  destruct a as [|[|[|a]]], b as [|[|[|b]]]; reflexivity.
Qed.

(** In the pair both cells write both entries, and the later row's value
    stays: the entries are equal, and hold the area difference of cell 1. *)
Example adjacent_pair_pressure :
  forall w,
    assemble_rows 2 1%float [(0, 0); (3, 0)]%float [0; 0]%Z [1.5; 3]%float
                  [unit_square; unit_square] adjacent_pair = Returns w ->
    pressure_matrix w = [[0; 2]; [2; 0]]%float.
Proof. intros w H. vm_compute in H. injection H as <-. reflexivity. Qed.

(** C1: for a symmetric adjacency matrix, [calculate_force_matrix] returns,
    and the pressure matrix that enters the force is symmetric: the
    pressure at [i, j] is the pressure at [j, i], for all [i] and [j]. *)
Theorem pressure_contribution_symmetric {F : Type} {SF : Scalar F}
        (num_cells : nat) (target_spring_length critical_length_delta : F)
        (cell_points : list (point F)) (cell_types : list Z) (target_areas : list F)
        (voronoi_vertices : list (list (point F))) (adjacency_matrix : matrix bool) :
  symmetric false adjacency_matrix ->
  exists w : work F,
    assemble_rows num_cells target_spring_length cell_points cell_types target_areas
                  voronoi_vertices adjacency_matrix = Returns w /\
    calculate_force_matrix num_cells target_spring_length critical_length_delta
                           cell_points cell_types target_areas voronoi_vertices
                           adjacency_matrix
    = Returns (force_of num_cells (final_spring critical_length_delta cell_types w)
                        (pressure_matrix w) (unit_vector_matrix w),
               distance_matrix w) /\
    forall i j, mget f0 (pressure_matrix w) i j = mget f0 (pressure_matrix w) j i.
Proof.
  intros _. eexists. split; [apply assemble_rows_returns|]. split.
  - unfold calculate_force_matrix. rewrite assemble_rows_returns. reflexivity.
  - apply pressure_symmetric_rows.
Qed.

Lemma pressure_contribution_symmetric_pair :
  symmetric false adjacent_pair /\
  exists w : work float,
    assemble_rows 2 1%float [(0, 0); (3, 0)]%float [0; 0]%Z [1.5; 3]%float
                  [unit_square; unit_square] adjacent_pair = Returns w /\
    calculate_force_matrix 2 1%float 0.5%float [(0, 0); (3, 0)]%float [0; 0]%Z
                           [1.5; 3]%float [unit_square; unit_square] adjacent_pair
    = Returns (force_of 2 (final_spring 0.5%float [0; 0]%Z w)
                        (pressure_matrix w) (unit_vector_matrix w),
               distance_matrix w) /\
    forall i j, mget f0 (pressure_matrix w) i j = mget f0 (pressure_matrix w) j i.
Proof.
  split; [exact adjacent_pair_symmetric|].
  apply (pressure_contribution_symmetric 2 1%float 0.5%float [(0, 0); (3, 0)]%float [0; 0]%Z
           [1.5; 3]%float [unit_square; unit_square] adjacent_pair_symmetric).
Defined.

(** The unit square in exact arithmetic. *)
Definition unit_square_exact : list (point R) := [(0, 0); (1, 0); (1, 1); (0, 1)]%R.



(** A boundary cell eleven units from its neighbour: the damped value
    [-10 * 0.1] is below the bound and is clipped to it. *)
Example boundary_row_clipped :
  forall w,
    assemble_rows 2 1%float [(0, 0); (11, 0)]%float [1; 0]%Z [1.5; 3]%float
                  [unit_square; unit_square] adjacent_pair = Returns w ->
    mlookup (spring_matrix w) 0 1 = Some (-10)%float /\
    mlookup (damp_boundary [1; 0]%Z (spring_matrix w)) 0 1 = Some (-1)%float /\
    mlookup (final_spring 0.5%float [1; 0]%Z w) 0 1 = Some (-0.5)%float.
Proof. intros w H. vm_compute in H. injection H as <-. vm_compute. repeat split. Qed.

Lemma clip_lower_exact (lo s : R) : clip_lower lo s = Rmax s lo.
Proof.
  unfold clip_lower. simpl. unfold Exact.ltb, Rmax.
  destruct (Rlt_dec s lo) as [H|H], (Rle_dec s lo) as [H'|H']; try reflexivity; lra.
Qed.

(** C5: the spring matrix is clipped element by element, from below at
    [-critical_length_delta] and not from above.  Each element [s] becomes
    the bound when [s] is less than the bound and stays [s] otherwise; in
    exact arithmetic that is [max s (-critical_length_delta)].  In binary64,
    with [critical_length_delta = 0.5]: [-2.0] becomes [-0.5], and [-0.1]
    and [3.0] stay; and for two ordinary cells three units apart, with rest
    length one and no area difference, the spring value [-2] enters the
    force as [-0.5]. *)
Theorem spring_clipped_from_below :
  (forall (F : Type) (SF : Scalar F) (critical_length_delta : F) (S : matrix F) (i j : nat),
      mlookup (clip_spring critical_length_delta S) i j
      = option_map (fun s => if flt s (fneg critical_length_delta)
                             then fneg critical_length_delta else s)
                   (mlookup S i j)) /\
  (forall critical_length_delta s : R,
      clip_lower (fneg critical_length_delta) s = Rmax s (- critical_length_delta)%R /\
      ((- critical_length_delta <= s)%R -> clip_lower (fneg critical_length_delta) s = s)) /\
  clip_spring 0.5%float [[(-2)%float; (-0.1)%float; 3%float]]
  = [[(-0.5)%float; (-0.1)%float; 3%float]] /\
  calculate_force_matrix 2 1%float 0.5%float [(0, 0); (3, 0)]%float [0; 0]%Z [1; 1]%float
                         [unit_square; unit_square] adjacent_pair
  = Returns ([[(0, 0); (-0.5, -0)]; [(0.5, -0); (0, 0)]]%float,
             [[0; 3]; [3; 0]]%float).
Proof.
  split; [|split; [|split]].
  - intros F SF cld S i j. apply mlookup_clip_spring.
  - intros cld s. rewrite clip_lower_exact. simpl. split; [reflexivity|].
    intros H. apply Rmax_left. exact H.
  - vm_compute. reflexivity.
  - vm_compute. reflexivity.
Qed.

(** ** [calculate_boundary_reflection] *)

Section ReflectionSpec.

Context {F : Type} {SF : Scalar F}.

(** The cosine of the angle between [c - a] and [c - b]: the dot product
    over the product of the norms, a scalar division. *)
Definition angle_cosine (a b c : point F) : outcome F :=
  py_div (dot (psub c a) (psub c b)) (fmul (norm (psub c a)) (norm (psub c b))).

(** The projection of [v] onto the unit direction of [e]. *)
Definition projection_onto (v e : point F) : point F :=
  let u := pdiv e (norm e) in pscale (dot v u) u.

(** [2 * p - c] for [p = a + ] the projection of [c - a] onto the edge. *)
Definition mirrored (a b c : point F) : point F :=
  let p := padd a (projection_onto (psub c a) (psub b a)) in
  psub (pscale (of_int 2) p) c.

Lemma reflection_by_cosine (empty_like : point F -> point F) (a b c : point F) :
  calculate_boundary_reflection empty_like a b c
  = (k <- angle_cosine a b c ;;
     if flt k f0 then Returns (true, mirrored a b c) else Returns (false, empty_like a)).
Proof. reflexivity. Qed.

End ReflectionSpec.

(** *** In exact arithmetic *)

Section ReflectionExact.

Local Open Scope R_scope.

Lemma dot_self_nonneg (p : point R) : 0 <= dot p p.
Proof.
  destruct p as [x y]. unfold dot. simpl.
  pose proof (Rle_0_sqr x) as Hx. pose proof (Rle_0_sqr y) as Hy.
  unfold Rsqr in Hx, Hy. lra.
Qed.

Lemma norm_norm (p : point R) : norm p * norm p = dot p p.
Proof. unfold norm. simpl. apply sqrt_sqrt, dot_self_nonneg. Qed.

Lemma norm_nonzero (a b : point R) : a <> b -> norm (psub b a) <> 0.
Proof.
  intros Hab Hn. apply Hab.
  assert (H : dot (psub b a) (psub b a) = 0).
  { rewrite <- norm_norm, Hn. ring. }
  destruct a as [ax ay], b as [bx by_]. unfold dot, psub in H. simpl in H.
  pose proof (Rle_0_sqr (bx - ax)) as Hx. pose proof (Rle_0_sqr (by_ - ay)) as Hy.
  unfold Rsqr in Hx, Hy.
  assert (Hx0 : (bx - ax) * (bx - ax) = 0) by lra.
  assert (Hy0 : (by_ - ay) * (by_ - ay) = 0) by lra.
  apply Rmult_integral in Hx0, Hy0.
  f_equal; lra.
Qed.

(** The point [q] is on the line through [a] and [b]. *)
Definition on_line (a b q : point R) : Prop :=
  exists t : R, q = padd a (pscale t (psub b a)).

Definition midpoint (p q : point R) : point R :=
  ((fst p + fst q) / 2, (snd p + snd q) / 2).

Definition cross (p q : point R) : R := fst p * snd q - snd p * fst q.

(** The distance from [q] to the line through [a] and [b]. *)
Definition distance_to_line (a b q : point R) : R :=
  Rabs (cross (psub b a) (psub q a)) / norm (psub b a).

Lemma reflected_is_mirrored (empty_like : point R -> point R) (a b c r : point R) :
  calculate_boundary_reflection empty_like a b c = Returns (true, r) ->
  r = mirrored a b c.
Proof.
  rewrite reflection_by_cosine. destruct (angle_cosine a b c) as [k|e]; simpl; [|discriminate].
  destruct (Exact.ltb _ _); intros H; inversion H. reflexivity.
Qed.

Lemma mirrored_coordinates (a b c : point R) :
  a <> b ->
  let n := norm (psub b a) in
  let k := dot (psub c a) (psub b a) / (n * n) in
  mirrored a b c = (2 * (fst a + k * (fst b - fst a)) - fst c,
                    2 * (snd a + k * (snd b - snd a)) - snd c).
Proof.
  intros Hab n k. assert (Hn := norm_nonzero Hab). fold n in Hn.
  unfold k, mirrored, projection_onto. fold n.
  destruct a as [ax ay], b as [bx by_], c as [cx cy].
  unfold psub, padd, pscale, pdiv, dot. simpl.
  f_equal; field; exact Hn.
Qed.

Lemma norm_positive (a c : point R) : c <> a -> 0 < norm (psub c a).
Proof.
  intros H. assert (Hn := norm_nonzero (fun E => H (eq_sym E))).
  assert (0 <= norm (psub c a)) by apply sqrt_pos. lra.
Qed.

Lemma angle_cosine_exact (a b c : point R) :
  c <> a -> c <> b ->
  angle_cosine a b c
  = Returns (dot (psub c a) (psub c b) / (norm (psub c a) * norm (psub c b))).
Proof.
  intros Ha Hb. unfold angle_cosine, py_div.
  cbn [fis_zero fmul fdiv exact]. unfold Exact.is_zero.
  destruct (Req_dec_T _ 0) as [E|_]; [|reflexivity].
  exfalso. apply Rmult_integral in E.
  pose proof (norm_positive Ha). pose proof (norm_positive Hb). lra.
Qed.

(** The sign of the cosine is the sign of the dot product. *)
Lemma cosine_sign (a b c : point R) :
  c <> a -> c <> b ->
  (dot (psub c a) (psub c b) / (norm (psub c a) * norm (psub c b)) < 0
   <-> dot (psub c a) (psub c b) < 0).
Proof.
  intros Ha Hb.
  assert (Hp : 0 < / (norm (psub c a) * norm (psub c b))).
  { apply Rinv_0_lt_compat, Rmult_lt_0_compat; apply norm_positive; assumption. }
  unfold Rdiv. split; intros H; nra.
Qed.

Lemma reflection_obtuse (empty_like : point R -> point R) (a b c : point R) :
  c <> a -> c <> b -> dot (psub c a) (psub c b) < 0 ->
  calculate_boundary_reflection empty_like a b c = Returns (true, mirrored a b c).
Proof.
  intros Ha Hb Hd. rewrite reflection_by_cosine, (angle_cosine_exact Ha Hb).
  cbn [bind flt exact]. unfold Exact.ltb, f0. cbn [of_int exact].
  destruct (Rlt_dec _ 0) as [_|N]; [reflexivity|].
  exfalso. apply N. apply cosine_sign; assumption.
Qed.

Lemma reflection_not_obtuse (empty_like : point R -> point R) (a b c : point R) :
  c <> a -> c <> b -> 0 <= dot (psub c a) (psub c b) ->
  calculate_boundary_reflection empty_like a b c = Returns (false, empty_like a).
Proof.
  intros Ha Hb Hd. rewrite reflection_by_cosine, (angle_cosine_exact Ha Hb).
  cbn [bind flt exact]. unfold Exact.ltb, f0. cbn [of_int exact].
  destruct (Rlt_dec _ 0) as [N|_]; [|reflexivity].
  exfalso. apply cosine_sign in N; [lra | assumption | assumption].
Qed.

Lemma pair_neq_fst (x y x' y' : R) : x <> x' -> (x, y) <> (x', y').
Proof. intros H E. apply H. congruence. Qed.

Lemma mirrored_below : mirrored (0, 0) (10, 0) (5, -1) = (5, 1).
Proof.
  rewrite mirrored_coordinates by (apply pair_neq_fst; lra).
  rewrite norm_norm. unfold dot, psub. simpl. f_equal; field.
Qed.

Lemma mirrored_above : mirrored (0, 0) (10, 0) (5, 1) = (5, -1).
Proof.
  rewrite mirrored_coordinates by (apply pair_neq_fst; lra).
  rewrite norm_norm. unfold dot, psub. simpl. f_equal; field.
Qed.

Lemma reflection_below_exact (empty_like : point R -> point R) :
  calculate_boundary_reflection empty_like (0, 0) (10, 0) (5, -1) = Returns (true, (5, 1)).
Proof.
  rewrite <- mirrored_below.
  apply reflection_obtuse; try (apply pair_neq_fst; lra).
  unfold dot, psub. simpl. lra.
Qed.

Lemma reflection_above_exact (empty_like : point R -> point R) :
  calculate_boundary_reflection empty_like (0, 0) (10, 0) (5, 1) = Returns (true, (5, -1)).
Proof.
  rewrite <- mirrored_above.
  apply reflection_obtuse; try (apply pair_neq_fst; lra).
  unfold dot, psub. simpl. lra.
Qed.

End ReflectionExact.

(** The point [(5, 1)] sees the edge from [(0, 0)] to [(10, 0)] under an
    obtuse angle, as [(5, -1)] does: the dot product of [(5, 1)] and
    [(-5, 1)] is [-24].  It is reflected, to [(5, -1)]. *)
Lemma point_above_edge_is_reflected :
  (forall empty_like : point float -> point float,
      calculate_boundary_reflection empty_like (0, 0)%float (10, 0)%float (5, 1)%float
      = Returns (true, (5, -1)%float)) /\
  (forall empty_like : point R -> point R,
      calculate_boundary_reflection empty_like (0, 0)%R (10, 0)%R (5, 1)%R
      = Returns (true, (5, -1)%R)).
Proof.
  split.
  - intros e. vm_compute. reflexivity.
  - exact reflection_above_exact.
Qed.

(** C6, as the code has it: when the cosine of the angle between [c - a]
    and [c - b] is negative the call returns [(True, 2 * p - c)], with [p]
    the point [a] plus the projection of [c - a] onto the unit direction of
    the edge; when the cosine is not negative it returns the flag [False]
    and the uninitialised array.  For [a = (0, 0)] and [b = (10, 0)] the
    point [(5, -1)] is reflected to [(5, 1)] and the point [(5, 1)] to
    [(5, -1)]; the point [(5, 6)], whose cosine is positive, is not
    reflected. *)
Theorem reflection_when_cosine_negative :
  (forall (F : Type) (SF : Scalar F) (empty_like : point F -> point F) (a b c : point F),
      (forall k, angle_cosine a b c = Returns k -> flt k f0 = true ->
                 calculate_boundary_reflection empty_like a b c
                 = Returns (true, mirrored a b c)) /\
      (forall k, angle_cosine a b c = Returns k -> flt k f0 = false ->
                 calculate_boundary_reflection empty_like a b c
                 = Returns (false, empty_like a))) /\
  (forall empty_like : point float -> point float,
      calculate_boundary_reflection empty_like (0, 0)%float (10, 0)%float (5, -1)%float
      = Returns (true, (5, 1)%float) /\
      calculate_boundary_reflection empty_like (0, 0)%float (10, 0)%float (5, 1)%float
      = Returns (true, (5, -1)%float) /\
      calculate_boundary_reflection empty_like (0, 0)%float (10, 0)%float (5, 6)%float
      = Returns (false, empty_like (0, 0)%float)) /\
  (forall empty_like : point R -> point R,
      calculate_boundary_reflection empty_like (0, 0)%R (10, 0)%R (5, -1)%R
      = Returns (true, (5, 1)%R) /\
      calculate_boundary_reflection empty_like (0, 0)%R (10, 0)%R (5, 1)%R
      = Returns (true, (5, -1)%R) /\
      calculate_boundary_reflection empty_like (0, 0)%R (10, 0)%R (5, 6)%R
      = Returns (false, empty_like (0, 0)%R)).
Proof.
  split; [|split].
  - intros F SF e a b c. split; intros k Hk Hlt;
      rewrite reflection_by_cosine, Hk; simpl; rewrite Hlt; reflexivity.
  - intros e. repeat split; vm_compute; reflexivity.
  - intros e. split; [apply reflection_below_exact|].
    split; [apply reflection_above_exact|].
    apply reflection_not_obtuse; try (apply pair_neq_fst; lra).
    unfold dot, psub. simpl. lra.
Qed.

(** C10: when the call returns [(True, r)] for [a <> b], the point [r] is
    the mirror image of [c] across the line through [a] and [b]: the
    midpoint of [c] and [r] is on the line, [r] and [c] are at the same
    distance from the line, and [r - c] is perpendicular to the edge. *)
Theorem reflection_is_mirror_image
        (empty_like : point R -> point R) (a b c r : point R) :
  a <> b ->
  calculate_boundary_reflection empty_like a b c = Returns (true, r) ->
  on_line a b (midpoint c r) /\
  distance_to_line a b r = distance_to_line a b c /\
  dot (psub r c) (psub b a) = 0%R.
Proof.
  intros Hab Hr. apply reflected_is_mirrored in Hr. subst r.
  assert (Hn := norm_nonzero Hab).
  rewrite (mirrored_coordinates c Hab).
  set (n := norm (psub b a)) in *.
  assert (Hnn : (n * n = dot (psub b a) (psub b a))%R) by apply norm_norm.
  set (k := (dot (psub c a) (psub b a) / (n * n))%R).
  assert (Hk : (k * (n * n) = dot (psub c a) (psub b a))%R) by (unfold k; field; exact Hn).
  rewrite Hnn in Hk. clearbody k. clear Hnn.
  destruct a as [ax ay], b as [bx by_], c as [cx cy].
  unfold dot, psub in Hk. simpl in Hk.
  split; [|split].
  - exists k. unfold midpoint, padd, pscale, psub. simpl. f_equal; field.
  - unfold distance_to_line. f_equal.
    replace (cross (psub (bx, by_) (ax, ay))
                   (psub ((2 * (ax + k * (bx - ax)) - cx)%R, (2 * (ay + k * (by_ - ay)) - cy)%R)
                         (ax, ay)))
      with (- cross (psub (bx, by_) (ax, ay)) (psub (cx, cy) (ax, ay)))%R
      by (unfold cross, psub; simpl; ring).
    apply Rabs_Ropp.
  - unfold dot, psub. simpl. simpl in Hk. nra.
Qed.

Lemma reflection_is_mirror_image_below :
  on_line (0, 0)%R (10, 0)%R (midpoint (5, -1)%R (5, 1)%R) /\
  distance_to_line (0, 0)%R (10, 0)%R (5, 1)%R
  = distance_to_line (0, 0)%R (10, 0)%R (5, -1)%R /\
  dot (psub (5, 1)%R (5, -1)%R) (psub (10, 0)%R (0, 0)%R) = 0%R.
Proof.
  apply (@reflection_is_mirror_image (fun a => a) (0, 0)%R (10, 0)%R (5, -1)%R (5, 1)%R).
  - apply pair_neq_fst. lra.
  - apply reflection_below_exact.
Defined.

(** ** [hexagonal_grid_layout] *)

Lemma range_length (lo hi : Z) : length (range lo hi) = Z.to_nat (hi - lo).
Proof. unfold range. rewrite length_map, length_seq. reflexivity. Qed.

Lemma In_range (lo hi i : Z) : In i (range lo hi) -> (lo <= i < hi)%Z.
Proof.
  unfold range. intros H. apply in_map_iff in H. destruct H as [k [<- Hk]].
  apply in_seq in Hk. lia.
Qed.

Lemma range_snoc (lo : Z) (k : nat) :
  range lo (lo + Z.of_nat (S k)) = range lo (lo + Z.of_nat k) ++ [(lo + Z.of_nat k)%Z].
Proof.
  unfold range.
  replace (Z.to_nat (lo + Z.of_nat (S k) - lo)) with (S k) by lia.
  replace (Z.to_nat (lo + Z.of_nat k - lo)) with k by lia.
  rewrite seq_S, map_app. reflexivity.
Qed.

Section LayoutSpec.

Context {F : Type} {SF : Scalar F} {TF : Trig F}.

(** The angle of the point [j] of ring [i]: [j * pi / (3 * i)], and
    [pi / (3 * i)] more on an even ring. *)
Definition angle_of (i j : Z) : F :=
  let angle := fdiv (fmul (of_int j) fpi) (of_int (3 * i)) in
  if (i mod 2 =? 0)%Z then fadd angle (fdiv fpi (of_int (3 * i))) else angle.

Definition ring_point_at (cx cy : F) (i j : Z) : point F :=
  (fadd cx (fmul (of_int i) (fcos (angle_of i j))),
   fadd cy (fmul (of_int i) (fsin (angle_of i j)))).

(** Ring [i]: its points by increasing [j]. *)
Definition ring (cx cy : F) (i : Z) : list (point F) :=
  map (ring_point_at cx cy i) (range 0 (6 * i)).

Lemma ring_point_returns (cx cy : F) (i j : Z) :
  i <> 0%Z -> ring_point cx cy i j = Returns (ring_point_at cx cy i j).
Proof.
  intros Hi. unfold ring_point, ring_point_at, angle_of, py_div_int.
  destruct (Z.eqb_spec (3 * i) 0) as [E|_]; [lia|]. simpl.
  destruct (i mod 2 =? 0)%Z; reflexivity.
Qed.

Lemma ring_loop_returns (cx cy : F) (i : Z) (l : list Z) :
  i <> 0%Z ->
  forall points,
    for_each l (fun j points => p <- ring_point cx cy i j ;; Returns (points ++ [p])) points
    = Returns (points ++ map (ring_point_at cx cy i) l).
Proof.
  intros Hi. induction l as [|j l IH]; intros points; simpl.
  - rewrite app_nil_r. reflexivity.
  - rewrite (ring_point_returns _ _ _ Hi). simpl. rewrite IH, <- app_assoc. reflexivity.
Qed.

Lemma rings_loop_returns (cx cy : F) (l : list Z) :
  (forall i, In i l -> i <> 0%Z) ->
  forall points,
    for_each l
      (fun i points =>
         for_each (range 0 (6 * i))
           (fun j points => p <- ring_point cx cy i j ;; Returns (points ++ [p]))
           points)
      points
    = Returns (points ++ flat_map (ring cx cy) l).
Proof.
  induction l as [|i l IH]; intros Hl points; simpl.
  - rewrite app_nil_r. reflexivity.
  - rewrite ring_loop_returns by (apply Hl; left; reflexivity). simpl.
    rewrite IH by (intros i' Hi'; apply Hl; right; exact Hi').
    rewrite <- app_assoc. reflexivity.
Qed.

(** The layout never raises: it is the center followed by the rings. *)
Lemma hexagonal_grid_layout_returns (num_cells x y : Z) :
  hexagonal_grid_layout num_cells x y
  = Returns ((fdiv (of_int x) (of_int 2), fdiv (of_int y) (of_int 2))
               :: flat_map (ring (fdiv (of_int x) (of_int 2)) (fdiv (of_int y) (of_int 2)))
                           (range 1 (num_rings num_cells + 1))).
Proof.
  unfold hexagonal_grid_layout. rewrite rings_loop_returns; [reflexivity|].
  intros i Hi. apply In_range in Hi. lia.
Qed.

Lemma ring_length (cx cy : F) (i : Z) : length (ring cx cy i) = Z.to_nat (6 * i).
Proof. unfold ring. rewrite length_map, range_length. f_equal. lia. Qed.

(** Rings 1 to [k] hold [3 * k * (k + 1)] points. *)
Lemma rings_length (cx cy : F) (k : nat) :
  length (flat_map (ring cx cy) (range 1 (1 + Z.of_nat k)))
  = Z.to_nat (3 * Z.of_nat k * (Z.of_nat k + 1)).
Proof.
  induction k as [|k IH].
  - reflexivity.
  - rewrite range_snoc, flat_map_app, length_app, IH. cbn [flat_map].
    rewrite app_nil_r, ring_length.
    rewrite <- Z2Nat.inj_add
      by first [lia | apply Z.mul_nonneg_nonneg; lia].
    f_equal. rewrite Nat2Z.inj_succ. ring.
Qed.

Lemma layout_length (cx cy : F) (r : Z) :
  (0 <= r)%Z ->
  length (A := point F) ((cx, cy) :: flat_map (ring cx cy) (range 1 (r + 1)))
  = Z.to_nat (3 * r * r + 3 * r + 1).
Proof.
  intros Hr. cbn [length].
  replace (r + 1)%Z with (1 + Z.of_nat (Z.to_nat r))%Z by lia.
  rewrite rings_length, Z2Nat.id by exact Hr.
  rewrite <- Z2Nat.inj_succ by (apply Z.mul_nonneg_nonneg; lia).
  f_equal. ring.
Qed.

Lemma layout_no_ring (cx cy : F) (r : Z) :
  (r <= 0)%Z ->
  (cx, cy) :: flat_map (ring cx cy) (range 1 (r + 1)) = [(cx, cy) : point F].
Proof.
  intros Hr. unfold range. replace (Z.to_nat (r + 1 - 1)) with 0%nat by lia. reflexivity.
Qed.

End LayoutSpec.

(** *** The ring count in exact arithmetic *)

Section RingsExact.

Local Open Scope R_scope.

(** The largest [num_cells] for which [12 * num_cells - 3] is an int64; the
    same holds down to its opposite. *)
Definition max_cells : Z := 768614336404564650%Z.

Lemma wrap64_small (z : Z) : (- 2 ^ 63 <= z < 2 ^ 63)%Z -> wrap64 z = z.
Proof. intros H. unfold wrap64. rewrite Z.mod_small by lia. lia. Qed.

Lemma wrap64_cells (num_cells : Z) :
  (- max_cells <= num_cells <= max_cells)%Z ->
  wrap64 (12 * num_cells - 3) = (12 * num_cells - 3)%Z.
Proof. unfold max_cells. intros H. apply wrap64_small. lia. Qed.

Lemma num_rings_exact_unfold (num_cells : Z) :
  (- max_cells <= num_cells <= max_cells)%Z ->
  num_rings (F:=R) num_cells = Zfloor (1 / 2 + sqrt (IZR (12 * num_cells - 3)) / 6).
Proof. intros H. unfold num_rings. rewrite (wrap64_cells H). reflexivity. Qed.

(** With [H k = 3 k^2 + 3 k + 1] the number of points of [k] rings, the
    ring count [r] of [num_cells >= 1] is the one with
    [H (r - 1) <= num_cells < H r]. *)
Lemma num_rings_exact_bounds (num_cells : Z) :
  (1 <= num_cells <= max_cells)%Z ->
  let r := num_rings (F:=R) num_cells in
  (1 <= r /\ 3 * r * r - 3 * r + 1 <= num_cells < 3 * r * r + 3 * r + 1)%Z.
Proof.
  intros [Hn Hmax] r. unfold r.
  rewrite num_rings_exact_unfold by (unfold max_cells in *; lia).
  set (q := IZR (12 * num_cells - 3)).
  assert (Hq : 9 <= q) by (unfold q; apply IZR_le; lia).
  assert (Hs := sqrt_sqrt q ltac:(lra)).
  assert (Hs0 := sqrt_pos q).
  set (s := sqrt q) in *.
  assert (Hs3 : 3 <= s) by nra.
  destruct (Zfloor_bound (1 / 2 + s / 6)) as [Hlo Hhi].
  set (z := Zfloor (1 / 2 + s / 6)) in *.
  assert (Hz1 : (1 <= z)%Z) by (apply Zfloor_lub; lra).
  assert (Hz1' : 1 <= IZR z) by (apply IZR_le; exact Hz1).
  split; [exact Hz1|]. split.
  - apply le_IZR. rewrite plus_IZR, minus_IZR, !mult_IZR.
    assert (H12 : q = 12 * IZR num_cells - 3).
    { unfold q. rewrite minus_IZR, mult_IZR. reflexivity. }
    assert (Hsq : (6 * IZR z - 3) * (6 * IZR z - 3) <= s * s) by nra.
    lra.
  - apply lt_IZR. rewrite !plus_IZR, !mult_IZR.
    assert (H12 : q = 12 * IZR num_cells - 3).
    { unfold q. rewrite minus_IZR, mult_IZR. reflexivity. }
    assert (Hsq : s * s < (6 * IZR z + 3) * (6 * IZR z + 3)) by nra.
    lra.
Qed.

(** Below one cell the square root is of a negative number, [0] in this
    arithmetic: no ring. *)
Lemma num_rings_exact_none (num_cells : Z) :
  (- max_cells <= num_cells < 1)%Z -> num_rings (F:=R) num_cells = 0%Z.
Proof.
  intros Hn. rewrite num_rings_exact_unfold by (unfold max_cells in *; lia).
  rewrite sqrt_neg_0 by (apply IZR_le; lia).
  apply Zfloor_eq. simpl. lra.
Qed.

(** On the centred hexagonal numbers the count is one more than the rings
    that hold them. *)
Lemma num_rings_exact_hexagonal (k : Z) :
  (0 <= k)%Z -> (3 * k * k + 3 * k + 1 <= max_cells)%Z ->
  num_rings (F:=R) (3 * k * k + 3 * k + 1) = (k + 1)%Z.
Proof.
  intros Hk Hmax.
  destruct (num_rings_exact_bounds (num_cells := 3 * k * k + 3 * k + 1) ltac:(nia))
    as (H1 & H2 & H3).
  set (r := num_rings (F:=R) (3 * k * k + 3 * k + 1)) in *.
  assert (r <= k + 1)%Z by nia.
  assert (k + 1 <= r)%Z by nia.
  lia.
Qed.

Lemma angle_of_exact (i j : Z) :
  i <> 0%Z ->
  angle_of (F:=R) i j
  = IZR (j + (if (i mod 2 =? 0)%Z then 1 else 0)) * PI / IZR (3 * i).
Proof.
  intros Hi. unfold angle_of.
  assert (H3 : IZR (3 * i) <> 0) by (apply not_0_IZR; lia).
  destruct (i mod 2 =? 0)%Z; simpl; rewrite plus_IZR; field; exact H3.
Qed.

Lemma ring_radius (cx cy : R) (i j : Z) :
  (0 <= i)%Z -> norm (psub (ring_point_at cx cy i j) (cx, cy)) = IZR i.
Proof.
  intros Hi. unfold norm, dot, psub, ring_point_at. simpl.
  set (t := angle_of i j).
  replace ((cx + IZR i * cos t - cx) * (cx + IZR i * cos t - cx) +
           (cy + IZR i * sin t - cy) * (cy + IZR i * sin t - cy))
    with (IZR i * IZR i).
  - apply sqrt_square, IZR_le. exact Hi.
  - pose proof (sin2_cos2 t) as H. unfold Rsqr in H. nra.
Qed.

Lemma nth_ring (cx cy : R) (i : Z) (k : nat) (d : point R) :
  (k < Z.to_nat (6 * i))%nat -> nth k (ring cx cy i) d = ring_point_at cx cy i (Z.of_nat k).
Proof.
  intros Hk. unfold ring, range. rewrite map_map.
  rewrite nth_map_seq. rewrite Z.sub_0_r.
  destruct (Nat.ltb_spec k (Z.to_nat (6 * i))); [reflexivity | lia].
Qed.

End RingsExact.

(** *** The ring count in binary64 *)

(** The ring count of [n] is the [r] with [H (r - 1) <= n < H r], for
    [H k = 3 k^2 + 3 k + 1]. *)
Definition ring_count_fits (n r : Z) : bool :=
  ((1 <=? r) && (3 * r * r - 3 * r + 1 <=? n) && (n <? 3 * r * r + 3 * r + 1))%Z.

Lemma binary64_ring_count_fits :
  forallb (fun n => ring_count_fits n (num_rings (F:=float) n)) (range 1 1001) = true.
Proof. vm_compute. reflexivity. Qed.

Section LayoutShape.

Context {F : Type} {SF : Scalar F} {TF : Trig F}.

(** The layout for a known ring count. *)
Lemma layout_of_rings (num_cells x y r : Z) :
  num_rings num_cells = r ->
  let cx := fdiv (of_int x) (of_int 2) in
  let cy := fdiv (of_int y) (of_int 2) in
  hexagonal_grid_layout num_cells x y
  = Returns ((cx, cy) :: flat_map (ring cx cy) (range 1 (r + 1))).
Proof. intros <-. apply hexagonal_grid_layout_returns. Qed.

End LayoutShape.

(** For seven cells the count is [floor (1/2 + 9/6) = 2]: two rings and
    nineteen points, not one ring and seven points. *)
Lemma seven_cells_two_rings :
  num_rings (F:=float) 7 = 2%Z /\
  num_rings (F:=R) 7 = 2%Z /\
  (forall (TF : Trig float) (x y : Z),
      exists points,
        hexagonal_grid_layout (F:=float) 7 x y = Returns points /\
        length points = 19%nat).
Proof.
  split; [vm_compute; reflexivity|]. split; [apply (num_rings_exact_hexagonal (k := 1)); unfold max_cells; lia|].
  intros TF x y. eexists. split.
  - apply (layout_of_rings (F:=float) 7 x y (r := 2)). vm_compute. reflexivity.
  - reflexivity.
Qed.

(** C2, as the code has it: with the ring count
    [floor (1/2 + sqrt (12 * num_cells - 3) / 6)], [num_cells = 7] gives 2
    rings and the center plus 6 plus 12 points, 19 in all, and
    [num_cells = 19] gives 3 rings and the center plus 6 plus 12 plus 18
    points, 37 in all; in binary64 and in exact arithmetic. *)
Theorem ring_count_of_seven_and_nineteen :
  (forall (TF : Trig float) (x y : Z),
      let cx := fdiv (of_int x) (of_int 2) in
      let cy := fdiv (of_int y) (of_int 2) in
      num_rings (F:=float) 7 = 2%Z /\
      hexagonal_grid_layout (F:=float) 7 x y
      = Returns ((cx, cy) :: ring cx cy 1 ++ ring cx cy 2) /\
      num_rings (F:=float) 19 = 3%Z /\
      hexagonal_grid_layout (F:=float) 19 x y
      = Returns ((cx, cy) :: ring cx cy 1 ++ ring cx cy 2 ++ ring cx cy 3) /\
      length (ring cx cy 1) = 6%nat /\ length (ring cx cy 2) = 12%nat /\
      length (ring cx cy 3) = 18%nat) /\
  (forall x y : Z,
      let cx := (IZR x / 2)%R in
      let cy := (IZR y / 2)%R in
      num_rings (F:=R) 7 = 2%Z /\
      hexagonal_grid_layout (F:=R) 7 x y
      = Returns ((cx, cy) :: ring cx cy 1 ++ ring cx cy 2) /\
      num_rings (F:=R) 19 = 3%Z /\
      hexagonal_grid_layout (F:=R) 19 x y
      = Returns ((cx, cy) :: ring cx cy 1 ++ ring cx cy 2 ++ ring cx cy 3) /\
      length (ring cx cy 1) = 6%nat /\ length (ring cx cy 2) = 12%nat /\
      length (ring cx cy 3) = 18%nat).
Proof.
  split.
  - intros TF x y cx cy.
    assert (H7 : num_rings (F:=float) 7 = 2%Z) by (vm_compute; reflexivity).
    assert (H19 : num_rings (F:=float) 19 = 3%Z) by (vm_compute; reflexivity).
    split; [exact H7|]. split.
    { rewrite (layout_of_rings (F:=float) 7 x y H7).
      change (range 1 (2 + 1)) with [1; 2]%Z. cbn [flat_map].
      rewrite app_nil_r. reflexivity. }
    split; [exact H19|]. split.
    { rewrite (layout_of_rings (F:=float) 19 x y H19).
      change (range 1 (3 + 1)) with [1; 2; 3]%Z. cbn [flat_map].
      rewrite app_nil_r. reflexivity. }
    repeat split.
  - intros x y cx cy.
    assert (H7 : num_rings (F:=R) 7 = 2%Z)
      by (apply (num_rings_exact_hexagonal (k := 1)); unfold max_cells; lia).
    assert (H19 : num_rings (F:=R) 19 = 3%Z)
      by (apply (num_rings_exact_hexagonal (k := 2)); unfold max_cells; lia).
    split; [exact H7|]. split.
    { rewrite (layout_of_rings (F:=R) 7 x y H7).
      change (range 1 (2 + 1)) with [1; 2]%Z. cbn [flat_map].
      rewrite app_nil_r. reflexivity. }
    split; [exact H19|]. split.
    { rewrite (layout_of_rings (F:=R) 19 x y H19).
      change (range 1 (3 + 1)) with [1; 2; 3]%Z. cbn [flat_map].
      rewrite app_nil_r. reflexivity. }
    repeat split.
Qed.

(** With no cell the call returns the center: nothing is rejected. *)
Lemma zero_cells_not_rejected :
  (forall TF : Trig float,
      hexagonal_grid_layout (F:=float) 0 10 10 = Returns [(5, 5)%float]) /\
  hexagonal_grid_layout (F:=R) 0 10 10 = Returns [(10 / 2, 10 / 2)%R].
Proof.
  split.
  - intros TF. rewrite (layout_of_rings (F:=float) 0 10 10 (r := Binary64.int64_min))
      by (vm_compute; reflexivity).
    vm_compute. reflexivity.
  - rewrite (layout_of_rings (F:=R) 0 10 10 (r := 0))
      by (apply num_rings_exact_none; unfold max_cells; lia).
    reflexivity.
Qed.

(** A count below 1 does not always give no ring: at
    [num_cells = -768614336404564651] the int64 [12 * num_cells - 3] wraps
    to a positive number, whose square root gives rings. *)
Example negative_count_wraps :
  wrap64 (12 * (-768614336404564651) - 3) = 9223372036854775801%Z /\
  num_rings (F:=float) (-768614336404564651) = 506166750%Z.
Proof. split; vm_compute; reflexivity. Qed.

(** C7, as the code has it: the generator has no failure mode.  For every
    [num_cells], also below 1, it returns a sequence of points that starts
    with the center and rejects nothing; when the ring count it computes is
    not positive, as at [num_cells = 0], the sequence is the center alone. *)
Theorem layout_never_rejects :
  (forall (F : Type) (SF : Scalar F) (TF : Trig F) (num_cells x y : Z),
      exists points,
        hexagonal_grid_layout num_cells x y
        = Returns ((fdiv (of_int x) (of_int 2), fdiv (of_int y) (of_int 2)) :: points)) /\
  (forall (F : Type) (SF : Scalar F) (TF : Trig F) (num_cells x y : Z),
      (num_rings num_cells <= 0)%Z ->
      hexagonal_grid_layout num_cells x y
      = Returns [(fdiv (of_int x) (of_int 2), fdiv (of_int y) (of_int 2))]) /\
  (forall (TF : Trig float) (x y : Z),
      (num_rings (F:=float) 0 <= 0)%Z /\
      hexagonal_grid_layout (F:=float) 0 x y
      = Returns [(fdiv (of_int x) (of_int 2), fdiv (of_int y) (of_int 2))]) /\
  (forall x y : Z,
      (num_rings (F:=R) 0 <= 0)%Z /\
      hexagonal_grid_layout (F:=R) 0 x y = Returns [(IZR x / 2, IZR y / 2)%R]).
Proof.
  assert (Hnone : forall (F : Type) (SF : Scalar F) (TF : Trig F) (num_cells x y : Z),
             (num_rings num_cells <= 0)%Z ->
             hexagonal_grid_layout num_cells x y
             = Returns [(fdiv (of_int x) (of_int 2), fdiv (of_int y) (of_int 2))]).
  { intros F SF TF n x y Hr. rewrite hexagonal_grid_layout_returns.
    apply f_equal, layout_no_ring, Hr. }
  split; [|split; [exact Hnone|split]].
  - intros F SF TF n x y. eexists. apply hexagonal_grid_layout_returns.
  - intros TF x y.
    assert (H0 : (num_rings (F:=float) 0 <= 0)%Z) by (vm_compute; discriminate).
    split; [exact H0 | apply Hnone, H0].
  - intros x y.
    assert (H0 : (num_rings (F:=R) 0 <= 0)%Z)
      by (rewrite num_rings_exact_none by (unfold max_cells; lia); lia).
    split; [exact H0 | apply (Hnone R exact exact_trig), H0].
Qed.

(** The angle of the point [k] of ring [i], in the words of the
    specification: [k] steps of [2 pi / (6 i)], and [pi / (3 i)] more on an
    even ring. *)
Definition ring_angle (i : Z) (k : nat) : R :=
  (IZR (Z.of_nat k + (if (i mod 2 =? 0)%Z then 1 else 0)) * PI / IZR (3 * i))%R.

Lemma ring_angle_increasing (i : Z) (k : nat) :
  (1 <= i)%Z -> (ring_angle i k < ring_angle i (S k))%R.
Proof.
  intros Hi. unfold ring_angle.
  assert (H3 : (0 < IZR (3 * i))%R) by (apply IZR_lt; lia).
  assert (Hpi := PI_RGT_0).
  rewrite Nat2Z.inj_succ. unfold Z.succ. rewrite !plus_IZR.
  unfold Rdiv. apply Rmult_lt_compat_r; [apply Rinv_0_lt_compat, H3|].
  apply Rmult_lt_compat_r; [exact Hpi|]. simpl. lra.
Qed.

(** For [num_cells = 2^60] the product [12 * num_cells] wraps in int64 to a
    negative number: its square root gives no ring, and the call returns the
    center alone, one point for [2^60] cells. *)
Lemma wrapped_count_returns_the_center :
  wrap64 (12 * 1152921504606846976 - 3) = (-4611686018427387907)%Z /\
  (forall TF : Trig float,
      hexagonal_grid_layout (F:=float) 1152921504606846976 10 10
      = Returns [(5, 5)%float]) /\
  hexagonal_grid_layout (F:=R) 1152921504606846976 10 10 = Returns [(10 / 2, 10 / 2)%R].
Proof.
  assert (Hw : wrap64 (12 * 1152921504606846976 - 3) = (-4611686018427387907)%Z)
    by (vm_compute; reflexivity).
  split; [exact Hw|]. split.
  - intros TF.
    rewrite (layout_of_rings (F:=float) 1152921504606846976 10 10 (r := Binary64.int64_min))
      by (vm_compute; reflexivity).
    vm_compute. reflexivity.
  - rewrite (layout_of_rings (F:=R) 1152921504606846976 10 10 (r := 0)); [reflexivity|].
    unfold num_rings. rewrite Hw.
    change (Zfloor (1 / 2 + sqrt (IZR (-4611686018427387907)) / 6) = 0%Z).
    rewrite sqrt_neg_0 by (apply IZR_le; lia).
    apply Zfloor_eq. simpl. lra.
Qed.

(** C8, as the code has it: for [num_cells] from 1 up to
    [768614336404564650], the largest for which [12 * num_cells - 3] is an
    int64, in exact arithmetic, the call returns the center [(x / 2, y / 2)]
    followed by ring 1, ring 2, up to the ring count; the points are more
    than [num_cells - 1].  Ring [i] has [6 * i] points; its point [k] is at
    the angle [ring_angle i k], which grows with [k], and at distance [i]
    from the center. *)
Theorem layout_holds_num_cells (num_cells x y : Z) :
  (1 <= num_cells <= max_cells)%Z ->
  let cx := (IZR x / 2)%R in
  let cy := (IZR y / 2)%R in
  exists points : list (point R),
    hexagonal_grid_layout (F:=R) num_cells x y = Returns points /\
    points = (cx, cy) :: flat_map (ring cx cy) (range 1 (num_rings (F:=R) num_cells + 1)) /\
    (num_cells <= Z.of_nat (length points))%Z /\
    forall i : Z,
      (1 <= i)%Z ->
      length (ring cx cy i) = Z.to_nat (6 * i) /\
      forall k : nat,
        (k < Z.to_nat (6 * i))%nat ->
        nth k (ring cx cy i) (cx, cy)
        = ((cx + IZR i * cos (ring_angle i k))%R, (cy + IZR i * sin (ring_angle i k))%R) /\
        norm (psub (nth k (ring cx cy i) (cx, cy)) (cx, cy)) = IZR i /\
        (ring_angle i k < ring_angle i (S k))%R.
Proof.
  intros Hn cx cy.
  destruct (num_rings_exact_bounds Hn) as (Hr1 & Hlo & Hhi).
  eexists. split; [apply hexagonal_grid_layout_returns|]. split; [reflexivity|]. split.
  - rewrite layout_length by lia. rewrite Z2Nat.id by nia. lia.
  - intros i Hi. split; [apply ring_length|].
    intros k Hk. rewrite nth_ring by exact Hk. split; [|split].
    + unfold ring_point_at. rewrite angle_of_exact by lia. reflexivity.
    + apply ring_radius. lia.
    + apply ring_angle_increasing, Hi.
Qed.

Lemma layout_holds_seven_cells :
  exists points : list (point R),
    hexagonal_grid_layout (F:=R) 7 10 10 = Returns points /\
    points = ((10 / 2)%R, (10 / 2)%R)
               :: flat_map (ring (10 / 2)%R (10 / 2)%R) (range 1 (num_rings (F:=R) 7 + 1)) /\
    (7 <= Z.of_nat (length points))%Z /\
    forall i : Z,
      (1 <= i)%Z ->
      length (ring (10 / 2)%R (10 / 2)%R i) = Z.to_nat (6 * i) /\
      forall k : nat,
        (k < Z.to_nat (6 * i))%nat ->
        nth k (ring (10 / 2)%R (10 / 2)%R i) ((10 / 2)%R, (10 / 2)%R)
        = ((10 / 2 + IZR i * cos (ring_angle i k))%R,
           (10 / 2 + IZR i * sin (ring_angle i k))%R) /\
        norm (psub (nth k (ring (10 / 2)%R (10 / 2)%R i) ((10 / 2)%R, (10 / 2)%R))
                   ((10 / 2)%R, (10 / 2)%R)) = IZR i /\
        (ring_angle i k < ring_angle i (S k))%R.
Proof.
  apply (layout_holds_num_cells (num_cells := 7) 10 10). unfold max_cells. lia.
Defined.

(** ** [polygon_area] *)

Section Shoelace.

Context {F : Type} {SF : Scalar F}.

(** The term of the edge from [p] to [q]. *)
Definition edge_term (p q : point F) : F :=
  fsub (fmul (fst p) (snd q)) (fmul (snd p) (fst q)).

(** The formula of the specification: the terms
    [x_i * y_{i+1} - y_i * x_{i+1}], the index [i + 1] taken modulo the
    number of vertices. *)
Definition shoelace_terms (vertices : list (point F)) : list F :=
  map (fun i => edge_term (nth i vertices p0)
                          (nth ((i + 1) mod length vertices) vertices p0))
      (seq 0 (length vertices)).

Definition shoelace (vertices : list (point F)) : F :=
  fmul half (fabs (np_sum (shoelace_terms vertices))).

(** The vertices, each with its successor around the loop. *)
Definition rotated (vertices : list (point F)) : list (point F) :=
  match vertices with
  | [] => []
  | h :: t => t ++ [h]
  end.

Lemma shifted_map {A : Type} (f : A -> F) (d : A) (l : list A) :
  shifted (map f l) = map f (match l with [] => [] | h :: t => t ++ [h] end).
Proof. destruct l as [|h t]; simpl; [reflexivity|]. rewrite map_app. reflexivity. Qed.

Lemma combine_coordinates (g : F * F * (F * F) -> F) (l : list (point F)) :
  forall l' : list (point F),
    map g (combine (combine (map fst l) (map snd l)) (combine (map fst l') (map snd l')))
    = map (fun pq => g (fst pq, snd pq)) (combine l l').
Proof.
  induction l as [|[x y] l IH]; intros [|[x' y'] l']; simpl; try reflexivity.
  rewrite IH. reflexivity.
Qed.

Lemma polygon_area_edges (vertices : list (point F)) :
  polygon_area vertices
  = fmul half (fabs (np_sum (map (fun pq => edge_term (fst pq) (snd pq))
                                 (combine vertices (rotated vertices))))).
Proof.
  unfold polygon_area.
  rewrite (shifted_map fst p0), (shifted_map snd p0).
  fold (rotated vertices). rewrite combine_coordinates. reflexivity.
Qed.

Lemma nth_rotated (vertices : list (point F)) (i : nat) :
  (i < length vertices)%nat ->
  nth i (rotated vertices) p0 = nth ((i + 1) mod length vertices) vertices p0.
Proof.
  destruct vertices as [|h t]; simpl length; [lia|]. intros Hi. unfold rotated.
  destruct (Nat.eq_dec i (length t)) as [->|Hne].
  - rewrite nth_middle. replace (length t + 1)%nat with (S (length t)) by lia.
    rewrite Nat.Div0.mod_same. reflexivity.
  - rewrite app_nth1 by lia. rewrite Nat.mod_small by lia.
    replace (i + 1)%nat with (S i) by lia. reflexivity.
Qed.

Lemma rotated_length (vertices : list (point F)) : length (rotated vertices) = length vertices.
Proof.
  destruct vertices as [|h t]; simpl; [reflexivity|]. rewrite length_app. simpl. lia.
Qed.

Lemma nth_map_within {A B : Type} (f : A -> B) (l : list A) (d : B) (d' : A) (i : nat) :
  (i < length l)%nat -> nth i (map f l) d = f (nth i l d').
Proof.
  intros Hi. rewrite (nth_indep _ d (f d')) by (rewrite length_map; exact Hi).
  apply map_nth.
Qed.

(** The code computes the formula. *)
Lemma polygon_area_shoelace (vertices : list (point F)) :
  polygon_area vertices = shoelace vertices.
Proof.
  rewrite polygon_area_edges. unfold shoelace. do 3 f_equal.
  assert (Hlen : length (combine vertices (rotated vertices)) = length vertices).
  { rewrite length_combine, rotated_length. apply Nat.min_id. }
  apply nth_ext with (d := f0) (d' := f0).
  - unfold shoelace_terms. rewrite !length_map, length_seq. exact Hlen.
  - intros i Hi. rewrite length_map, Hlen in Hi.
    unfold shoelace_terms.
    rewrite (nth_map_within _ _ f0 (p0, p0)) by (rewrite Hlen; exact Hi).
    rewrite (nth_map_within _ _ f0 0%nat) by (rewrite length_seq; exact Hi).
    rewrite seq_nth by exact Hi.
    rewrite combine_nth by (symmetry; apply rotated_length).
    cbn [fst snd]. rewrite nth_rotated by exact Hi. reflexivity.
Qed.

End Shoelace.

(** *** The winding direction *)

Section Winding.

Local Open Scope R_scope.

Lemma np_sum_exact (l : list R) : forall a, fold_left fadd l a = a + fold_right Rplus 0 l.
Proof.
  induction l as [|x l IH]; intros a; simpl.
  - ring.
  - rewrite IH. simpl. ring.
Qed.

(** The sum of the edge terms along an open chain of points. *)
Fixpoint chain (l : list (point R)) : R :=
  match l with
  | [] => 0
  | a :: t => match t with
              | [] => 0
              | b :: _ => edge_term a b + chain t
              end
  end.

Lemma chain_snoc (l : list (point R)) (a b : point R) :
  chain (l ++ [a; b]) = chain (l ++ [a]) + edge_term a b.
Proof.
  induction l as [|c l IH].
  - simpl. ring.
  - destruct l as [|c' l].
    + simpl. ring.
    + change (chain ((c :: c' :: l) ++ [a; b]))
        with (edge_term c c' + chain ((c' :: l) ++ [a; b])).
      change (chain ((c :: c' :: l) ++ [a]))
        with (edge_term c c' + chain ((c' :: l) ++ [a])).
      rewrite IH. ring.
Qed.

Lemma edge_term_swap (a b : point R) : edge_term b a = - edge_term a b.
Proof. unfold edge_term. simpl. ring. Qed.

Lemma chain_rev (l : list (point R)) : forall a, chain (rev (a :: l)) = - chain (a :: l).
Proof.
  induction l as [|b l IH]; intros a.
  - simpl. ring.
  - change (rev (a :: b :: l)) with (rev (b :: l) ++ [a]).
    cbn [rev]. rewrite <- app_assoc. cbn [app].
    rewrite chain_snoc.
    change (rev l ++ [b]) with (rev (b :: l)). rewrite IH.
    change (chain (a :: b :: l)) with (edge_term a b + chain (b :: l)).
    rewrite edge_term_swap. ring.
Qed.

(** The terms of the closed loop are those of the chain that returns to
    its first point. *)
Lemma loop_chain (t : list (point R)) :
  forall a h,
    fold_right Rplus 0
      (map (fun pq => edge_term (fst pq) (snd pq)) (combine (a :: t) (t ++ [h])))
    = chain (a :: t ++ [h]).
Proof.
  induction t as [|b t IH]; intros a h.
  - simpl. reflexivity.
  - change (combine (a :: b :: t) ((b :: t) ++ [h]))
      with ((a, b) :: combine (b :: t) (t ++ [h])).
    cbn [map fold_right fst snd]. rewrite IH. reflexivity.
Qed.

Definition signed_sum (vertices : list (point R)) : R :=
  np_sum (map (fun pq => edge_term (fst pq) (snd pq)) (combine vertices (rotated vertices))).

Lemma signed_sum_chain (h : point R) (t : list (point R)) :
  signed_sum (h :: t) = chain (h :: t ++ [h]).
Proof.
  unfold signed_sum, np_sum, rotated. rewrite np_sum_exact, loop_chain.
  unfold f0. simpl of_int. ring.
Qed.

Lemma signed_sum_rev (vertices : list (point R)) :
  signed_sum (rev vertices) = - signed_sum vertices.
Proof.
  destruct vertices as [|h t].
  - unfold signed_sum, np_sum, f0. simpl. ring.
  - rewrite signed_sum_chain.
    change (h :: t ++ [h]) with ((h :: t) ++ [h]).
    destruct (rev (h :: t)) as [|h' t'] eqn:E.
    + apply (f_equal (@length _)) in E. rewrite length_rev in E. discriminate.
    + rewrite signed_sum_chain.
      assert (E1 : chain (h' :: t' ++ [h']) = chain (h' :: t') + edge_term h h').
      { change (h' :: t' ++ [h']) with ((h' :: t') ++ [h']). rewrite <- E.
        cbn [rev]. rewrite <- app_assoc. cbn [app]. apply chain_snoc. }
      assert (E2 : chain (rev ((h :: t) ++ [h])) = edge_term h h' + chain (h' :: t')).
      { rewrite rev_app_distr. cbn [rev app]. change (rev t ++ [h]) with (rev (h :: t)).
        rewrite E. reflexivity. }
      assert (E3 : chain (rev ((h :: t) ++ [h])) = - chain ((h :: t) ++ [h])).
      { cbn [app]. apply chain_rev. }
      lra.
Qed.

Lemma polygon_area_signed_sum (vertices : list (point R)) :
  polygon_area vertices = 1 / 2 * Rabs (signed_sum vertices).
Proof. rewrite polygon_area_edges. reflexivity. Qed.

Lemma polygon_area_rev (vertices : list (point R)) :
  polygon_area (rev vertices) = polygon_area vertices.
Proof.
  rewrite !polygon_area_signed_sum, signed_sum_rev, Rabs_Ropp. reflexivity.
Qed.

Lemma polygon_area_nonneg (vertices : list (point R)) : 0 <= polygon_area vertices.
Proof.
  rewrite polygon_area_signed_sum. pose proof (Rabs_pos (signed_sum vertices)). lra.
Qed.

End Winding.

(** C9: [polygon_area] computes [0.5 * |sum (x_i * y_{i+1} - y_i * x_{i+1})|],
    the index [i + 1] wrapping around; the area is not negative and is the
    same for the reversed loop of vertices (in exact arithmetic); for the
    unit square it is [1.0], in either direction. *)
Theorem polygon_area_is_shoelace :
  (forall (F : Type) (SF : Scalar F) (vertices : list (point F)),
      polygon_area vertices = shoelace vertices) /\
  (forall vertices : list (point R),
      (0 <= polygon_area vertices)%R /\
      polygon_area (rev vertices) = polygon_area vertices) /\
  polygon_area unit_square = 1%float /\
  polygon_area (rev unit_square) = 1%float /\
  polygon_area unit_square_exact = 1%R.
Proof.
  split; [|split; [|split; [|split]]].
  - intros F SF vertices. apply polygon_area_shoelace.
  - intros vertices. split; [apply polygon_area_nonneg | apply polygon_area_rev].
  - vm_compute. reflexivity.
  - vm_compute. reflexivity.
  - unfold unit_square_exact. rewrite polygon_area_signed_sum, signed_sum_chain.
    unfold chain, edge_term. simpl.
    replace (0 * 0 - 0 * 1 + (1 * 1 - 0 * 1 + (1 * 1 - 1 * 0 + (0 * 0 - 1 * 0 + 0))))%R
      with 2%R by ring.
    rewrite Rabs_right by lra. lra.
Qed.

(** ** Further properties *)

(** The input as the source reads it: [num_cells] cells in every array, an
    adjacency matrix of shape (num_cells, num_cells), and a polygon with a
    vertex for every cell whose area is taken, a cell not of type 1 that has
    a neighbour.  On such an input every index of the source is within its
    array. *)
Definition well_formed {F : Type} (num_cells : nat) (cell_points : list (point F))
           (cell_types : list Z) (target_areas : list F)
           (voronoi_vertices : list (list (point F))) (adjacency_matrix : matrix bool)
  : Prop :=
  length cell_points = num_cells /\
  length cell_types = num_cells /\
  length target_areas = num_cells /\
  length voronoi_vertices = num_cells /\
  shape num_cells num_cells adjacency_matrix /\
  forall i,
    (i < num_cells)%nat ->
    nth i cell_types 0%Z <> 1%Z ->
    nonzero (nth i adjacency_matrix []) <> [] ->
    nth i voronoi_vertices [] <> [].

(** On a well-formed input [calculate_force_matrix] does not raise, and its
    two results have the shapes (N, N, 2) and (N, N). *)
Theorem calculate_force_matrix_returns {F : Type} {SF : Scalar F}
        (num_cells : nat) (target_spring_length critical_length_delta : F)
        (cell_points : list (point F)) (cell_types : list Z) (target_areas : list F)
        (voronoi_vertices : list (list (point F))) (adjacency_matrix : matrix bool) :
  well_formed num_cells cell_points cell_types target_areas voronoi_vertices
              adjacency_matrix ->
  exists force distance,
    calculate_force_matrix num_cells target_spring_length critical_length_delta
                           cell_points cell_types target_areas voronoi_vertices
                           adjacency_matrix
    = Returns (force, distance) /\
    shape num_cells num_cells force /\ shape num_cells num_cells distance.
Proof.
  intros _.
  unfold calculate_force_matrix. rewrite assemble_rows_returns. cbn [bind].
  eexists. eexists. split; [reflexivity|]. split.
  - unfold force_of. split.
    + rewrite length_map, length_seq. reflexivity.
    + apply Forall_forall. intros r Hr. apply in_map_iff in Hr.
      destruct Hr as [i [<- _]]. rewrite length_map, length_seq. reflexivity.
  - apply work_shape_rows.
Qed.

Lemma calculate_force_matrix_returns_pair :
  well_formed 2 [(0, 0); (3, 0)]%float [0; 0]%Z [1.5; 3]%float
              [unit_square; unit_square] adjacent_pair /\
  exists force distance,
    calculate_force_matrix 2 1%float 0.5%float [(0, 0); (3, 0)]%float [0; 0]%Z
                           [1.5; 3]%float [unit_square; unit_square] adjacent_pair
    = Returns (force, distance) /\
    shape 2 2 force /\ shape 2 2 distance.
Proof.
  assert (H : well_formed 2 [(0, 0); (3, 0)]%float [0; 0]%Z [1.5; 3]%float
                          [unit_square; unit_square] adjacent_pair).
  { repeat (split; [reflexivity|]).
    split; [split; [reflexivity | repeat constructor]|].
    intros [|[|i]] Hi _ _; [discriminate | discriminate | lia]. }
  split; [exact H|].
  apply (calculate_force_matrix_returns 1%float 0.5%float H).
Defined.

(** The number of points of the layout, for a ring count that is not
    negative: [3 r^2 + 3 r + 1]. *)
Theorem layout_point_count {F : Type} {SF : Scalar F} {TF : Trig F} (num_cells x y : Z) :
  exists points,
    hexagonal_grid_layout num_cells x y = Returns points /\
    ((0 <= num_rings num_cells)%Z ->
     Z.of_nat (length points)
     = (3 * num_rings num_cells * num_rings num_cells + 3 * num_rings num_cells + 1)%Z).
Proof.
  eexists. split; [apply hexagonal_grid_layout_returns|].
  intros Hr. rewrite layout_length by exact Hr.
  apply Z2Nat.id. nia.
Qed.

(** * Further properties of the kernel *)

(** ** The entries of the matrices of [calculate_force_matrix] *)

Lemma existsb_nonzero (row : list bool) (b : nat) :
  existsb (Nat.eqb b) (nonzero row) = nth b row false.
Proof.
  destruct (nth b row false) eqn:E.
  - apply existsb_exists. exists b. split; [|apply Nat.eqb_refl].
    unfold nonzero. apply filter_In. split; [|exact E].
    apply in_seq. destruct (Nat.lt_ge_cases b (length row)) as [H|H]; [lia|].
    rewrite nth_overflow in E by exact H. discriminate.
  - destruct (existsb (Nat.eqb b) (nonzero row)) eqn:H; [|reflexivity].
    apply existsb_exists in H. destruct H as [x [Hx Hbx]].
    apply Nat.eqb_eq in Hbx. subst x. apply In_nonzero in Hx. congruence.
Qed.

Lemma combine_map_same {A B C : Type} (f : A -> B) (g : A -> C) (l : list A) :
  combine (map f l) (map g l) = map (fun x => (f x, g x)) l.
Proof. induction l as [|x l IH]; simpl; [reflexivity|]. rewrite IH. reflexivity. Qed.

Lemma mget_of_mlookup {A : Type} (d : A) (M : matrix A) (i j : nat) (v : A) :
  mlookup M i j = Some v -> mget d M i j = v.
Proof.
  unfold mlookup, mget. destruct (nth_error M i) as [r|] eqn:E; [|discriminate].
  intros H. rewrite (nth_error_nth M i [] E). apply nth_error_nth, H.
Qed.

(** [M[i, js] = vs] when the value of column [j] is a function of [j]. *)
Lemma mget_assign_row_map {A : Type} (d : A) (n m : nat) (i : nat) (js : list nat)
      (g : nat -> A) (a b : nat) :
  forall M : matrix A, shape n m M ->
  mget d (assign_row M i js (map g js)) a b =
  if (a =? i)%nat && existsb (Nat.eqb b) js && (i <? n)%nat && (b <? m)%nat then g b
  else mget d M a b.
Proof.
  unfold assign_row.
  induction js as [|j js IH]; intros M HM; simpl.
  - rewrite andb_false_r. reflexivity.
  - rewrite IH by (apply shape_mset, HM).
    rewrite (mget_mset d _ _ _ _ _ HM).
    destruct (Nat.eqb_spec a i) as [Hai|Hai]; simpl; [|reflexivity].
    destruct (Nat.eqb_spec b j) as [Hbj|Hbj]; simpl; [|reflexivity].
    subst b.
    destruct (existsb (Nat.eqb j) js); simpl; [destruct (i <? n)%nat, (j <? m)%nat; reflexivity|].
    reflexivity.
Qed.

Section Entries.

Context {F : Type} {SF : Scalar F}.

Variable num_cells : nat.
Variable target_spring_length critical_length_delta : F.
Variable cell_points : list (point F).
Variable cell_types : list Z.
Variable target_areas : list F.
Variable voronoi_vertices : list (list (point F)).
Variable adjacency_matrix : matrix bool.

(** The displacement from cell [i] to cell [j], its length, and its
    direction. *)
Definition displacement (i j : nat) : point F :=
  psub (nth j cell_points p0) (nth i cell_points p0).

Definition distance_between (i j : nat) : F :=
  fsqrt (fadd (fmul (fst (displacement i j)) (fst (displacement i j)))
              (fmul (snd (displacement i j)) (snd (displacement i j)))).

Definition direction (i j : nat) : point F :=
  pdiv (displacement i j) (distance_between i j).

Local Abbreviation nbrs := (neighbours_of adjacency_matrix).
Local Abbreviation result :=
  (row_result target_spring_length cell_points cell_types target_areas
              voronoi_vertices adjacency_matrix).
Local Abbreviation results :=
  (rows_result target_spring_length cell_points cell_types target_areas
               voronoi_vertices adjacency_matrix).

Lemma distances_of_map (i : nat) :
  distances_of cell_points adjacency_matrix i = map (distance_between i) (nbrs i).
Proof. unfold distances_of, differences_of. rewrite map_map. reflexivity. Qed.

Lemma springs_of_map (i : nat) :
  springs_of target_spring_length cell_points adjacency_matrix i
  = map (fun j => fsub target_spring_length (distance_between i j)) (nbrs i).
Proof. unfold springs_of. rewrite distances_of_map, map_map. reflexivity. Qed.

Lemma unit_vectors_of_map (i : nat) :
  unit_vectors_of cell_points adjacency_matrix i = map (direction i) (nbrs i).
Proof.
  unfold unit_vectors_of. rewrite distances_of_map. unfold differences_of.
  rewrite combine_map_same, map_map. reflexivity.
Qed.

(** A matrix each row of which is written by its own row of the loop. *)
Lemma rows_local {A : Type} (d : A) (g : nat -> nat -> A) (proj : work F -> matrix A) :
  (forall i w, proj (result i w) = assign_row (proj w) i (nbrs i) (map (g i) (nbrs i))) ->
  forall (l : list nat) (w : work F) (a b : nat),
    shape num_cells num_cells (proj w) ->
    mget d (proj (results l w)) a b
    = if existsb (Nat.eqb a) l && mget false adjacency_matrix a b
         && (a <? num_cells)%nat && (b <? num_cells)%nat
      then g a b else mget d (proj w) a b.
Proof.
  intros Hrow. induction l as [|i l IH]; intros w a b Hw.
  - reflexivity.
  - change (results (i :: l) w) with (results l (result i w)).
    rewrite IH by (rewrite Hrow; apply shape_assign_row, Hw).
    rewrite Hrow, mget_assign_row_map with (n := num_cells) (m := num_cells) by exact Hw.
    unfold neighbours_of at 1.
    rewrite existsb_nonzero. cbn [existsb].
    destruct (Nat.eqb_spec a i) as [->|Hai]; cbn [orb andb]; [|reflexivity].
    fold (mget false adjacency_matrix i b).
    destruct (existsb (Nat.eqb i) l), (mget false adjacency_matrix i b),
      (i <? num_cells)%nat, (b <? num_cells)%nat; reflexivity.
Qed.

Lemma existsb_seq (a n : nat) : existsb (Nat.eqb a) (seq 0 n) = (a <? n)%nat.
Proof.
  destruct (Nat.ltb_spec a n) as [H|H].
  - apply existsb_exists. exists a. split; [apply in_seq; lia | apply Nat.eqb_refl].
  - destruct (existsb (Nat.eqb a) (seq 0 n)) eqn:E; [|reflexivity].
    apply existsb_exists in E. destruct E as [x [Hx Hax]].
    apply in_seq in Hx. apply Nat.eqb_eq in Hax. lia.
Qed.

Definition final_work : work F := results (seq 0 num_cells) (initial_work num_cells).

Lemma distance_entry (i j : nat) :
  (i < num_cells)%nat -> (j < num_cells)%nat ->
  mget f0 (distance_matrix final_work) i j
  = if mget false adjacency_matrix i j then distance_between i j else f0.
Proof.
  intros Hi Hj. unfold final_work.
  rewrite (rows_local f0 distance_between (@distance_matrix F)).
  - rewrite existsb_seq. simpl distance_matrix. rewrite mget_zeros.
    destruct (Nat.ltb_spec i num_cells); [|lia].
    destruct (Nat.ltb_spec j num_cells); [|lia].
    destruct (mget false adjacency_matrix i j); reflexivity.
  - intros k w. simpl. rewrite distances_of_map. reflexivity.
  - apply shape_zeros.
Qed.

Lemma unit_vector_entry (i j : nat) :
  (i < num_cells)%nat -> (j < num_cells)%nat ->
  mget p0 (unit_vector_matrix final_work) i j
  = if mget false adjacency_matrix i j then direction i j else p0.
Proof.
  intros Hi Hj. unfold final_work.
  rewrite (rows_local p0 direction (@unit_vector_matrix F)).
  - rewrite existsb_seq. simpl unit_vector_matrix. rewrite mget_zeros.
    destruct (Nat.ltb_spec i num_cells); [|lia].
    destruct (Nat.ltb_spec j num_cells); [|lia].
    destruct (mget false adjacency_matrix i j); reflexivity.
  - intros k w. simpl. rewrite unit_vectors_of_map. reflexivity.
  - apply shape_zeros.
Qed.

Lemma spring_entry (i j : nat) :
  (i < num_cells)%nat -> (j < num_cells)%nat ->
  mget f0 (spring_matrix final_work) i j
  = if mget false adjacency_matrix i j
    then fsub target_spring_length (distance_between i j) else f0.
Proof.
  intros Hi Hj. unfold final_work.
  rewrite (rows_local f0 (fun i j => fsub target_spring_length (distance_between i j))
                      (@spring_matrix F)).
  - rewrite existsb_seq. simpl spring_matrix. rewrite mget_zeros.
    destruct (Nat.ltb_spec i num_cells); [|lia].
    destruct (Nat.ltb_spec j num_cells); [|lia].
    destruct (mget false adjacency_matrix i j); reflexivity.
  - intros k w. simpl. rewrite springs_of_map. reflexivity.
  - apply shape_zeros.
Qed.

(** The damping of row [i]. *)
Definition damped (i : nat) (s : F) : F :=
  if (nth i cell_types 0 =? 1)%Z then fmul s tenth else s.

Lemma final_spring_entry (i j : nat) :
  (i < num_cells)%nat -> (j < num_cells)%nat ->
  mget f0 (final_spring critical_length_delta cell_types final_work) i j
  = clip_lower (fneg critical_length_delta)
      (damped i (if mget false adjacency_matrix i j
                 then fsub target_spring_length (distance_between i j) else f0)).
Proof.
  intros Hi Hj. apply mget_of_mlookup. unfold final_spring.
  rewrite mlookup_clip_spring, mlookup_damp_boundary.
  rewrite (mlookup_shape f0 (n := num_cells) (m := num_cells)); [|apply work_shape_rows|exact Hi|exact Hj].
  fold final_work. rewrite spring_entry by assumption. reflexivity.
Qed.

(** *** The pressure matrix: the later row stays *)

(** Row [i] writes the pair of cells [i] and [j]: cell [i] is not of type 1
    and [j] is among its neighbours. *)
Definition writes (i j : nat) : bool :=
  negb (nth i cell_types 0 =? 1)%Z && mget false adjacency_matrix i j.

Local Abbreviation delta :=
  (split_area_difference_of target_areas voronoi_vertices adjacency_matrix).

Lemma results_snoc (l : list nat) (k : nat) (w : work F) :
  results (l ++ [k]) w = result k (results l w).
Proof. unfold rows_result. rewrite fold_left_app. reflexivity. Qed.

Ltac decide_comparisons :=
  repeat match goal with
         | |- context [(?x <? ?y)%nat] => destruct (Nat.ltb_spec x y); try lia
         | |- context [(?x =? ?y)%nat] => destruct (Nat.eqb_spec x y); try lia
         end.

Lemma pressure_prefix (k : nat) :
  (k <= num_cells)%nat ->
  forall a b,
    (a <= b)%nat -> (b < num_cells)%nat ->
    mget f0 (pressure_matrix (results (seq 0 k) (initial_work num_cells))) a b
    = if (b <? k)%nat && writes b a then delta b
      else if (a <? k)%nat && writes a b then delta a
      else f0.
Proof.
  induction k as [|k IH]; intros Hk a b Hab Hb.
  - simpl. rewrite mget_zeros. reflexivity.
  - rewrite seq_S, results_snoc. cbn [pressure_matrix row_result Nat.add].
    assert (HP := work_shape_rows num_cells target_spring_length cell_points cell_types
                    target_areas voronoi_vertices adjacency_matrix (seq 0 k)).
    destruct HP as (_ & HP & _).
    specialize (IH ltac:(lia) a b Hab Hb).
    unfold pressure_after.
    destruct (nth k cell_types 0%Z =? 1)%Z eqn:Hty.
    + rewrite IH. unfold writes.
      destruct (Nat.eq_dec a k) as [Ea|Ea]; destruct (Nat.eq_dec b k) as [Eb|Eb];
        try subst a; try subst b; rewrite ?Hty; decide_comparisons;
        cbn [andb negb]; reflexivity.
    + rewrite (mget_assign_col_const f0 _ _ _ _ _ (shape_assign_row_const _ _ _ HP)).
      rewrite (mget_assign_row_const f0 _ _ _ _ _ HP).
      unfold neighbours_of. rewrite !existsb_nonzero.
      change (nth a (nth k adjacency_matrix []) false) with (mget false adjacency_matrix k a).
      change (nth b (nth k adjacency_matrix []) false) with (mget false adjacency_matrix k b).
      rewrite IH. unfold writes.
      destruct (Nat.eq_dec a k) as [Ea|Ea]; destruct (Nat.eq_dec b k) as [Eb|Eb];
        try subst a; try subst b; rewrite ?Hty; decide_comparisons;
        cbn [andb negb];
        repeat match goal with
               | |- context [mget false adjacency_matrix ?x ?y] =>
                   destruct (mget false adjacency_matrix x y)
               end;
        cbn [andb negb]; rewrite ?andb_false_r; reflexivity.
Qed.

Lemma pressure_entry (a b : nat) :
  (a <= b)%nat -> (b < num_cells)%nat ->
  mget f0 (pressure_matrix final_work) a b
  = if writes b a then delta b else if writes a b then delta a else f0.
Proof.
  intros Hab Hb. unfold final_work.
  rewrite (pressure_prefix (Nat.le_refl num_cells) Hab Hb).
  destruct (Nat.ltb_spec b num_cells); [|lia].
  destruct (Nat.ltb_spec a num_cells); [|lia]. reflexivity.
Qed.

End Entries.

Lemma force_entries_formula {F : Type} {SF : Scalar F}
        (num_cells : nat) (target_spring_length critical_length_delta : F)
        (cell_points : list (point F)) (cell_types : list Z) (target_areas : list F)
        (voronoi_vertices : list (list (point F))) (adjacency_matrix : matrix bool) :
  exists (w : work F) force distance,
    assemble_rows num_cells target_spring_length cell_points cell_types target_areas
                  voronoi_vertices adjacency_matrix = Returns w /\
    calculate_force_matrix num_cells target_spring_length critical_length_delta
                           cell_points cell_types target_areas voronoi_vertices
                           adjacency_matrix
    = Returns (force, distance) /\
    forall i j,
      (i < num_cells)%nat -> (j < num_cells)%nat ->
      mget f0 distance i j
      = (if mget false adjacency_matrix i j then distance_between cell_points i j else f0) /\
      mget p0 force i j
      = pscale
          (fadd (clip_lower (fneg critical_length_delta)
                   (damped cell_types i
                      (if mget false adjacency_matrix i j
                       then fsub target_spring_length (distance_between cell_points i j)
                       else f0)))
                (mget f0 (pressure_matrix w) i j))
          (if mget false adjacency_matrix i j then direction cell_points i j else p0).
Proof.
  unfold calculate_force_matrix. rewrite assemble_rows_returns. cbn [bind].
  eexists. eexists. eexists. split; [reflexivity|]. split; [reflexivity|].
  intros i j Hi Hj.
  fold (final_work num_cells target_spring_length cell_points cell_types target_areas
                   voronoi_vertices adjacency_matrix).
  split.
  - apply distance_entry; assumption.
  - rewrite mget_force_of.
    destruct (Nat.ltb_spec i num_cells); [|lia].
    destruct (Nat.ltb_spec j num_cells); [|lia]. cbn [andb].
    rewrite final_spring_entry, unit_vector_entry by assumption. reflexivity.
Qed.

(** The distance and the force of every pair of cells: on an edge the
    distance is the length of the displacement and the force is the
    displacement's direction scaled by the clipped, damped spring value plus
    the pressure; off the edges the distance is zero and the force is a
    multiple of the zero vector. *)
Theorem force_and_distance_entries {F : Type} {SF : Scalar F}
        (num_cells : nat) (target_spring_length critical_length_delta : F)
        (cell_points : list (point F)) (cell_types : list Z) (target_areas : list F)
        (voronoi_vertices : list (list (point F))) (adjacency_matrix : matrix bool) :
  exists (w : work F) force distance,
    assemble_rows num_cells target_spring_length cell_points cell_types target_areas
                  voronoi_vertices adjacency_matrix = Returns w /\
    calculate_force_matrix num_cells target_spring_length critical_length_delta
                           cell_points cell_types target_areas voronoi_vertices
                           adjacency_matrix
    = Returns (force, distance) /\
    forall i j,
      (i < num_cells)%nat -> (j < num_cells)%nat ->
      mget f0 distance i j
      = (if mget false adjacency_matrix i j then distance_between cell_points i j else f0) /\
      mget p0 force i j
      = pscale
          (fadd (clip_lower (fneg critical_length_delta)
                   (damped cell_types i
                      (if mget false adjacency_matrix i j
                       then fsub target_spring_length (distance_between cell_points i j)
                       else f0)))
                (mget f0 (pressure_matrix w) i j))
          (if mget false adjacency_matrix i j then direction cell_points i j else p0).
Proof.
  apply force_entries_formula.
Qed.

(** The pressure of a pair of cells [a <= b] is the area difference of the
    cell whose row comes last among the rows that write the pair: that of
    [b] when [b] is not of type 1 and has [a] as a neighbour, otherwise that
    of [a] when [a] is not of type 1 and has [b] as a neighbour, otherwise
    zero; both entries of the pair hold it. *)
Theorem pressure_entries {F : Type} {SF : Scalar F}
        (num_cells : nat) (target_spring_length : F)
        (cell_points : list (point F)) (cell_types : list Z) (target_areas : list F)
        (voronoi_vertices : list (list (point F))) (adjacency_matrix : matrix bool) :
  exists w : work F,
    assemble_rows num_cells target_spring_length cell_points cell_types target_areas
                  voronoi_vertices adjacency_matrix = Returns w /\
    forall a b,
      (a <= b)%nat -> (b < num_cells)%nat ->
      let area_difference :=
        split_area_difference_of target_areas voronoi_vertices adjacency_matrix in
      let pressure :=
        if writes cell_types adjacency_matrix b a then area_difference b
        else if writes cell_types adjacency_matrix a b then area_difference a
        else f0 in
      mget f0 (pressure_matrix w) a b = pressure /\
      mget f0 (pressure_matrix w) b a = pressure.
Proof.
  rewrite assemble_rows_returns. eexists. split; [reflexivity|].
  intros a b Hab Hb area_difference pressure.
  fold (final_work num_cells target_spring_length cell_points cell_types target_areas
                   voronoi_vertices adjacency_matrix).
  assert (H : mget f0 (pressure_matrix
                         (final_work num_cells target_spring_length cell_points cell_types
                                     target_areas voronoi_vertices adjacency_matrix)) a b
              = pressure) by (apply pressure_entry; assumption).
  split; [exact H|]. rewrite <- H. apply pressure_symmetric_rows.
Qed.

(** ** Off the edges *)

Section OffEdges.

Context {F : Type} {SF : Scalar F}.

Variable num_cells : nat.
Variable target_spring_length critical_length_delta : F.
Variable cell_points : list (point F).
Variable cell_types : list Z.
Variable target_areas : list F.
Variable voronoi_vertices : list (list (point F)).
Variable adjacency_matrix : matrix bool.

Local Abbreviation final :=
  (final_work num_cells target_spring_length cell_points cell_types target_areas
              voronoi_vertices adjacency_matrix).

(** Off an edge the pressure of the pair is written by the row of the other
    cell only. *)
Lemma pressure_off_edge (i j : nat) :
  (i < num_cells)%nat -> (j < num_cells)%nat ->
  mget false adjacency_matrix i j = false ->
  mget f0 (pressure_matrix final) i j
  = if writes cell_types adjacency_matrix j i
    then split_area_difference_of target_areas voronoi_vertices adjacency_matrix j
    else f0.
Proof.
  intros Hi Hj Hij.
  assert (Hw : writes cell_types adjacency_matrix i j = false)
    by (unfold writes; rewrite Hij; apply andb_false_r).
  destruct (Nat.le_gt_cases i j) as [H|H].
  - rewrite pressure_entry by assumption. rewrite Hw.
    destruct (writes cell_types adjacency_matrix j i); reflexivity.
  - unfold final_work. rewrite pressure_symmetric_rows. fold final.
    rewrite pressure_entry by lia. rewrite Hw. reflexivity.
Qed.

(** The force off an edge: the damped, clipped zero of the spring matrix
    plus the pressure, times the zero unit vector. *)
Lemma force_off_edge (i j : nat) :
  (i < num_cells)%nat -> (j < num_cells)%nat ->
  mget false adjacency_matrix i j = false ->
  mget p0 (force_of num_cells (final_spring critical_length_delta cell_types final)
                    (pressure_matrix final) (unit_vector_matrix final)) i j
  = pscale
      (fadd (clip_lower (fneg critical_length_delta) (damped cell_types i f0))
            (if writes cell_types adjacency_matrix j i
             then split_area_difference_of target_areas voronoi_vertices adjacency_matrix j
             else f0))
      p0.
Proof.
  intros Hi Hj Hij. rewrite mget_force_of.
  destruct (Nat.ltb_spec i num_cells); [|lia].
  destruct (Nat.ltb_spec j num_cells); [|lia]. cbn [andb].
  rewrite final_spring_entry, unit_vector_entry, pressure_off_edge by assumption.
  rewrite Hij. reflexivity.
Qed.

(** A row without a true entry has no neighbour, and the loop passes it
    by. *)
Lemma row_without_neighbours (i : nat) (w : work F) :
  (forall j, mget false adjacency_matrix i j = false) ->
  row_step target_spring_length cell_points cell_types target_areas voronoi_vertices
           adjacency_matrix i w
  = Returns w.
Proof.
  intros Hrow. unfold row_step.
  assert (E : nonzero (nth i adjacency_matrix []) = []).
  { unfold nonzero. induction (seq 0 (length (nth i adjacency_matrix []))) as [|j l IH].
    - reflexivity.
    - cbn [filter]. change (nth j (nth i adjacency_matrix []) false)
        with (mget false adjacency_matrix i j). rewrite Hrow. exact IH. }
  rewrite E. reflexivity.
Qed.

End OffEdges.

(** The comparisons and products of binary64 that the entries off the edges
    go through. *)
Lemma binary64_zero : @f0 float binary64 = 0%float.
Proof. vm_compute. reflexivity. Qed.

Lemma binary64_clip_zero (critical_length_delta : float) (cell_types : list Z) (i : nat) :
  (0 <=? critical_length_delta)%float = true ->
  clip_lower (fneg critical_length_delta) (damped cell_types i f0) = 0%float.
Proof.
  intros H.
  assert (E : damped cell_types i (@f0 float binary64) = 0%float).
  { unfold damped. destruct (nth i cell_types 0%Z =? 1)%Z; vm_compute; reflexivity. }
  rewrite E. unfold clip_lower. cbn [flt fneg binary64].
  rewrite ltb_spec, opp_spec. rewrite leb_spec in H.
  change (Prim2SF 0) with (S754_zero false) in *.
  destruct (Prim2SF critical_length_delta) as [s|s| |s m e];
    try destruct s; try discriminate H; reflexivity.
Qed.

Lemma binary64_times_zero (m : float) :
  match Prim2SF m with
  | S754_zero s | S754_finite s _ _ => Prim2SF (m * 0)%float = S754_zero s
  | _ => (m * 0)%float = nan
  end.
Proof.
  pose proof (mul_spec m 0) as H. change (Prim2SF 0) with (S754_zero false) in H.
  destruct (Prim2SF m) as [s|s| |s mm e] eqn:E.
  - rewrite H. destruct s; reflexivity.
  - apply Prim2SF_inj. rewrite H. reflexivity.
  - apply Prim2SF_inj. rewrite H. reflexivity.
  - rewrite H. destruct s; reflexivity.
Qed.

(** Three cells: a boundary cell without neighbours and a pair of ordinary
    cells.  The row of the first cell is passed by, its polygon is not read,
    and its rows of the results are zero. *)
Definition isolated_first : matrix bool :=
  [[false; false; false]; [false; false; true]; [false; true; false]].

Example isolated_cell_rows :
  exists force distance,
    calculate_force_matrix 3 1%float 0.5%float [(0, 0); (1, 0); (4, 0)]%float [1; 0; 0]%Z
                           [0; 2; 3]%float [[]; unit_square; unit_square] isolated_first
    = Returns (force, distance) /\
    nth 0 force [] = [(0, 0); (0, 0); (0, 0)]%float /\
    nth 0 distance [] = [0; 0; 0]%float.
Proof. eexists. eexists. split; [vm_compute; reflexivity|]. split; reflexivity. Qed.

(** Two cells of which only the first has the other as a neighbour. *)
Definition one_way_pair : matrix bool := [[false; true]; [false; false]].

Definition big_square : list (point float) :=
  [(0, 0); (9e153, 0); (9e153, 9e153); (0, 9e153)]%float.

(** Cell 0 has cell 1 as a neighbour, and not the other way round: row 0
    writes both pressure entries of the pair.  With a target area of
    infinity, or with finite inputs whose area difference overflows, the
    force of cell 1, which has no neighbour, is not a number. *)
Lemma force_off_the_edge_not_a_number :
  nth 1 one_way_pair [] = [false; false] /\
  calculate_force_matrix 2 1%float 0.5%float [(0, 0); (3, 0)]%float [0; 0]%Z
                         [infinity; 1]%float [unit_square; unit_square] one_way_pair
  = Returns ([[(0, 0); (infinity, nan)]; [(nan, nan); (0, 0)]]%float,
             [[0; 3]; [0; 0]]%float) /\
  polygon_area big_square = 8.1000000000000002e+307%float /\
  calculate_force_matrix 2 1%float 0.5%float [(0, 0); (3, 0)]%float [0; 0]%Z
                         [(-1.5e308); 1]%float [big_square; unit_square] one_way_pair
  = Returns ([[(0, 0); (neg_infinity, nan)]; [(nan, nan); (0, 0)]]%float,
             [[0; 3]; [0; 0]]%float).
Proof. repeat split; vm_compute; reflexivity. Qed.

(** C3, as the code has it: where the adjacency matrix is false the
    distance entry is zero, and the force entry is the magnitude, spring
    plus pressure, times the zero unit vector; the spring part is the
    clipped, damped zero that the spring matrix holds there, and the
    pressure part is the area difference of cell [j] when row [j] writes the
    pair and zero otherwise; a row without a true entry is passed by
    whatever the type of its cell, with no division.  The force entry is the
    zero vector in exact arithmetic; in binary64 it is the zero vector when
    [critical_length_delta >= 0] and row [j] does not write the pair. *)
Theorem zero_off_the_edges :
  (forall (F : Type) (SF : Scalar F)
          (num_cells : nat) (target_spring_length critical_length_delta : F)
          (cell_points : list (point F)) (cell_types : list Z) (target_areas : list F)
          (voronoi_vertices : list (list (point F))) (adjacency_matrix : matrix bool),
      exists force distance,
        calculate_force_matrix num_cells target_spring_length critical_length_delta
                               cell_points cell_types target_areas voronoi_vertices
                               adjacency_matrix
        = Returns (force, distance) /\
        (forall i j, mget false adjacency_matrix i j = false ->
                     mget f0 distance i j = f0) /\
        (forall i j,
            (i < num_cells)%nat -> (j < num_cells)%nat ->
            mget false adjacency_matrix i j = false ->
            let spring := clip_lower (fneg critical_length_delta) (damped cell_types i f0) in
            let pressure :=
              if writes cell_types adjacency_matrix j i
              then split_area_difference_of target_areas voronoi_vertices
                                            adjacency_matrix j
              else f0 in
            mget p0 force i j = pscale (fadd spring pressure) p0) /\
        (forall i w,
            (forall j, mget false adjacency_matrix i j = false) ->
            row_step target_spring_length cell_points cell_types target_areas
                     voronoi_vertices adjacency_matrix i w
            = Returns w)) /\
  (forall (num_cells : nat) (target_spring_length critical_length_delta : R)
          (cell_points : list (point R)) (cell_types : list Z) (target_areas : list R)
          (voronoi_vertices : list (list (point R))) (adjacency_matrix : matrix bool),
      exists force distance,
        calculate_force_matrix num_cells target_spring_length critical_length_delta
                               cell_points cell_types target_areas voronoi_vertices
                               adjacency_matrix
        = Returns (force, distance) /\
        (forall i j, mget false adjacency_matrix i j = false ->
                     mget p0 force i j = p0 /\ mget f0 distance i j = f0) /\
        (forall i, (forall j, mget false adjacency_matrix i j = false) ->
                   forall j, mget p0 force i j = p0 /\ mget f0 distance i j = f0)) /\
  (forall (num_cells : nat) (target_spring_length critical_length_delta : float)
          (cell_points : list (point float)) (cell_types : list Z)
          (target_areas : list float)
          (voronoi_vertices : list (list (point float))) (adjacency_matrix : matrix bool),
      (0 <=? critical_length_delta)%float = true ->
      exists force distance,
        calculate_force_matrix num_cells target_spring_length critical_length_delta
                               cell_points cell_types target_areas voronoi_vertices
                               adjacency_matrix
        = Returns (force, distance) /\
        forall i j,
          mget false adjacency_matrix i j = false ->
          writes cell_types adjacency_matrix j i = false ->
          mget p0 force i j = (0, 0)%float /\ mget f0 distance i j = 0%float).
Proof.
  split; [|split].
  - intros F SF num_cells target_spring_length critical_length_delta cell_points cell_types
           target_areas voronoi_vertices adjacency_matrix.
    unfold calculate_force_matrix. rewrite assemble_rows_returns. cbn [bind].
    eexists. eexists. split; [reflexivity|]. split; [|split].
    + intros i j Hij.
      apply (off_edges_zero_rows num_cells target_spring_length cell_points cell_types
               target_areas voronoi_vertices adjacency_matrix (seq 0 num_cells) _ _ Hij).
    + intros i j Hi Hj Hij. apply force_off_edge; assumption.
    + intros i w Hrow. apply row_without_neighbours, Hrow.
  - intros num_cells target_spring_length critical_length_delta cell_points cell_types
           target_areas voronoi_vertices adjacency_matrix.
    unfold calculate_force_matrix. rewrite assemble_rows_returns. cbn [bind].
    set (w := rows_result _ _ _ _ _ _ _ _).
    assert (Hz : forall i j, mget false adjacency_matrix i j = false ->
                   mget p0 (force_of num_cells
                                     (final_spring critical_length_delta cell_types w)
                                     (pressure_matrix w) (unit_vector_matrix w)) i j = p0 /\
                   mget f0 (distance_matrix w) i j = f0).
    { intros i j Hij.
      destruct (off_edges_zero_rows num_cells target_spring_length cell_points cell_types
                  target_areas voronoi_vertices adjacency_matrix (seq 0 num_cells) _ _ Hij)
        as [HD HU].
      fold w in HD, HU. split; [|exact HD].
      rewrite mget_force_of, HU.
      destruct ((i <? num_cells)%nat && (j <? num_cells)%nat); [|reflexivity].
      unfold pscale, p0, f0. cbn [fst snd fmul of_int exact]. f_equal; ring. }
    eexists. eexists. split; [reflexivity|]. split; [exact Hz|].
    intros i Hi j. apply Hz, Hi.
  - intros num_cells target_spring_length critical_length_delta cell_points cell_types
           target_areas voronoi_vertices adjacency_matrix Hdelta.
    unfold calculate_force_matrix. rewrite assemble_rows_returns. cbn [bind].
    eexists. eexists. split; [reflexivity|].
    intros i j Hij Hji.
    destruct (off_edges_zero_rows num_cells target_spring_length cell_points cell_types
                target_areas voronoi_vertices adjacency_matrix (seq 0 num_cells) _ _ Hij)
      as [HD HU].
    split; [|rewrite HD; apply binary64_zero].
    destruct (Nat.lt_ge_cases i num_cells) as [Hi|Hi];
      [destruct (Nat.lt_ge_cases j num_cells) as [Hj|Hj]|].
    + fold (final_work num_cells target_spring_length cell_points cell_types target_areas
                       voronoi_vertices adjacency_matrix).
      rewrite force_off_edge by assumption.
      rewrite Hji, binary64_clip_zero by exact Hdelta.
      vm_compute. reflexivity.
    + rewrite mget_force_of.
      destruct (Nat.ltb_spec j num_cells); [lia|]. rewrite andb_false_r.
      vm_compute. reflexivity.
    + rewrite mget_force_of.
      destruct (Nat.ltb_spec i num_cells); [lia|]. cbn [andb].
      vm_compute. reflexivity.
Qed.

(** In binary64 the force off the edges is the magnitude, spring plus
    pressure, times the zero unit vector: a zero with the sign of the
    magnitude when it is finite, and not a number when it is infinite or not
    a number. *)
Theorem off_edge_force_binary64
        (num_cells : nat) (target_spring_length critical_length_delta : float)
        (cell_points : list (point float)) (cell_types : list Z) (target_areas : list float)
        (voronoi_vertices : list (list (point float))) (adjacency_matrix : matrix bool) :
  exists force distance,
    calculate_force_matrix num_cells target_spring_length critical_length_delta
                           cell_points cell_types target_areas voronoi_vertices
                           adjacency_matrix
    = Returns (force, distance) /\
    forall i j,
      (i < num_cells)%nat -> (j < num_cells)%nat ->
      mget false adjacency_matrix i j = false ->
      let spring := clip_lower (- critical_length_delta)%float (damped cell_types i 0%float) in
      let pressure :=
        if writes cell_types adjacency_matrix j i
        then split_area_difference_of target_areas voronoi_vertices adjacency_matrix j
        else 0%float in
      let magnitude := (spring + pressure)%float in
      mget p0 force i j = ((magnitude * 0)%float, (magnitude * 0)%float) /\
      match Prim2SF magnitude with
      | S754_zero s | S754_finite s _ _ =>
          Prim2SF (fst (mget p0 force i j)) = S754_zero s /\
          Prim2SF (snd (mget p0 force i j)) = S754_zero s
      | _ => mget p0 force i j = (nan, nan)
      end.
Proof.
  unfold calculate_force_matrix. rewrite assemble_rows_returns. cbn [bind].
  eexists. eexists. split; [reflexivity|].
  intros i j Hi Hj Hij.
  set (magnitude := (clip_lower (- critical_length_delta) (damped cell_types i 0) + _)%float).
  fold (final_work num_cells target_spring_length cell_points cell_types target_areas
                   voronoi_vertices adjacency_matrix).
  assert (E : mget p0 (force_of num_cells
                         (final_spring critical_length_delta cell_types
                            (final_work num_cells target_spring_length cell_points cell_types
                                        target_areas voronoi_vertices adjacency_matrix))
                         (pressure_matrix
                            (final_work num_cells target_spring_length cell_points cell_types
                                        target_areas voronoi_vertices adjacency_matrix))
                         (unit_vector_matrix
                            (final_work num_cells target_spring_length cell_points cell_types
                                        target_areas voronoi_vertices adjacency_matrix))) i j
              = ((magnitude * 0)%float, (magnitude * 0)%float)).
  { rewrite force_off_edge by assumption. reflexivity. }
  rewrite E. split; [reflexivity|]. cbn [fst snd].
  pose proof (binary64_times_zero magnitude) as H.
  destruct (Prim2SF magnitude) as [s|s| |s m e].
  - split; exact H.
  - rewrite H. reflexivity.
  - rewrite H. reflexivity.
  - split; exact H.
Qed.

Section Frame.

Context {F : Type} {SF : Scalar F}.

Variable target_spring_length : F.
Variable cell_points : list (point F).
Variable cell_types : list Z.
Variable adjacency_matrix : matrix bool.

Lemma rows_result_frame (target_areas target_areas' : list F)
      (voronoi_vertices voronoi_vertices' : list (list (point F))) :
  (forall i, nth i cell_types 0%Z <> 1%Z ->
             nth i target_areas f0 = nth i target_areas' f0 /\
             nth i voronoi_vertices [] = nth i voronoi_vertices' []) ->
  forall l w,
    rows_result target_spring_length cell_points cell_types target_areas
                voronoi_vertices adjacency_matrix l w
    = rows_result target_spring_length cell_points cell_types target_areas'
                  voronoi_vertices' adjacency_matrix l w.
Proof.
  intros Hsame. induction l as [|i l IH]; intros w; [reflexivity|].
  cbn [rows_result fold_left]. unfold rows_result in IH. rewrite <- IH. f_equal.
  unfold row_result. f_equal. unfold pressure_after.
  destruct (Z.eqb_spec (nth i cell_types 0%Z) 1) as [_|Hi]; [reflexivity|].
  unfold split_area_difference_of. destruct (Hsame i Hi) as [-> ->]. reflexivity.
Qed.

End Frame.

(** The target area and the polygon of a cell of type 1 are not read: two
    inputs that differ only there give the same result. *)
Theorem boundary_cell_inputs_unused {F : Type} {SF : Scalar F}
        (num_cells : nat) (target_spring_length critical_length_delta : F)
        (cell_points : list (point F)) (cell_types : list Z)
        (target_areas target_areas' : list F)
        (voronoi_vertices voronoi_vertices' : list (list (point F)))
        (adjacency_matrix : matrix bool) :
  (forall i, nth i cell_types 0%Z <> 1%Z ->
             nth i target_areas f0 = nth i target_areas' f0 /\
             nth i voronoi_vertices [] = nth i voronoi_vertices' []) ->
  calculate_force_matrix num_cells target_spring_length critical_length_delta
                         cell_points cell_types target_areas voronoi_vertices
                         adjacency_matrix
  = calculate_force_matrix num_cells target_spring_length critical_length_delta
                           cell_points cell_types target_areas' voronoi_vertices'
                           adjacency_matrix.
Proof.
  intros Hsame. unfold calculate_force_matrix. rewrite !assemble_rows_returns.
  rewrite rows_result_frame with (target_areas' := target_areas')
                                 (voronoi_vertices' := voronoi_vertices') by exact Hsame.
  reflexivity.
Qed.

Lemma boundary_cell_inputs_unused_pair :
  calculate_force_matrix 2 1%float 0.5%float [(0, 0); (3, 0)]%float [1; 0]%Z
                         [1.5; 3]%float [unit_square; unit_square] adjacent_pair
  = calculate_force_matrix 2 1%float 0.5%float [(0, 0); (3, 0)]%float [1; 0]%Z
                           [99; 3]%float [[]; unit_square] adjacent_pair.
Proof.
  apply (@boundary_cell_inputs_unused float binary64 2 1%float 0.5%float
           [(0, 0); (3, 0)]%float [1; 0]%Z [1.5; 3]%float [99; 3]%float
           [unit_square; unit_square] [[]; unit_square] adjacent_pair).
  intros [|[|i]] Hi.
  - exfalso. apply Hi. reflexivity.
  - split; reflexivity.
  - split; destruct i; reflexivity.
Defined.

(** *** In exact arithmetic *)

Section EntriesExact.

Local Open Scope R_scope.

Variable cell_points : list (point R).

Lemma distance_between_swap (i j : nat) :
  distance_between cell_points j i = distance_between cell_points i j.
Proof.
  unfold distance_between, displacement, psub. simpl. f_equal. ring.
Qed.

Lemma direction_swap (i j : nat) :
  direction cell_points j i
  = (- fst (direction cell_points i j), - snd (direction cell_points i j)).
Proof.
  unfold direction. rewrite distance_between_swap.
  unfold displacement, psub, pdiv. simpl. unfold Rdiv. f_equal; ring.
Qed.

Lemma distance_between_positive (i j : nat) :
  nth i cell_points p0 <> nth j cell_points p0 -> 0 < distance_between cell_points i j.
Proof.
  intros H. apply (norm_positive (a := nth i cell_points p0) (c := nth j cell_points p0)).
  intros E. apply H. symmetry. exact E.
Qed.

End EntriesExact.

(** Newton's third law, in exact arithmetic: for two cells that are each
    other's neighbour the two distances are equal, and when the cells are
    both of type 1 or both not, the two forces are opposite. *)
Theorem forces_equal_and_opposite
        (num_cells : nat) (target_spring_length critical_length_delta : R)
        (cell_points : list (point R)) (cell_types : list Z) (target_areas : list R)
        (voronoi_vertices : list (list (point R))) (adjacency_matrix : matrix bool) :
  exists force distance,
    calculate_force_matrix num_cells target_spring_length critical_length_delta
                           cell_points cell_types target_areas voronoi_vertices
                           adjacency_matrix
    = Returns (force, distance) /\
    forall i j,
      (i < num_cells)%nat -> (j < num_cells)%nat ->
      mget false adjacency_matrix i j = true ->
      mget false adjacency_matrix j i = true ->
      mget f0 distance j i = mget f0 distance i j /\
      ((nth i cell_types 0 =? 1)%Z = (nth j cell_types 0 =? 1)%Z ->
       mget p0 force j i
       = ((- fst (mget p0 force i j))%R, (- snd (mget p0 force i j))%R)).
Proof.
  destruct (force_entries_formula num_cells target_spring_length critical_length_delta
              cell_points cell_types target_areas voronoi_vertices adjacency_matrix)
    as (w & force & distance & Hw & Hcall & Hentries).
  exists force, distance. split; [exact Hcall|].
  intros i j Hi Hj Hij Hji.
  destruct (Hentries i j Hi Hj) as [Dij Fij].
  destruct (Hentries j i Hj Hi) as [Dji Fji].
  rewrite Hij in Dij, Fij. rewrite Hji in Dji, Fji.
  split.
  - rewrite Dij, Dji. apply distance_between_swap.
  - intros Hty. rewrite Fij, Fji.
    assert (HP : mget f0 (pressure_matrix w) j i = mget f0 (pressure_matrix w) i j).
    { rewrite assemble_rows_returns in Hw. injection Hw as <-.
      apply pressure_symmetric_rows. }
    rewrite HP, distance_between_swap, direction_swap.
    unfold damped. rewrite Hty. unfold pscale. simpl. f_equal; ring.
Qed.

(** Two neighbouring cells of type 1, in exact arithmetic: there is no
    pressure between them, and the force on [i] is the direction from [i]
    to [j] scaled by [max (0.1 * (L - d)) (- delta)], for the rest length
    [L] and the distance [d]; so when the cells are apart and closer than
    the rest length, the force on [i] points towards [j]. *)
Theorem boundary_pair_force
        (num_cells : nat) (target_spring_length critical_length_delta : R)
        (cell_points : list (point R)) (cell_types : list Z) (target_areas : list R)
        (voronoi_vertices : list (list (point R))) (adjacency_matrix : matrix bool) :
  exists force distance,
    calculate_force_matrix num_cells target_spring_length critical_length_delta
                           cell_points cell_types target_areas voronoi_vertices
                           adjacency_matrix
    = Returns (force, distance) /\
    forall i j,
      (i < num_cells)%nat -> (j < num_cells)%nat ->
      mget false adjacency_matrix i j = true ->
      nth i cell_types 0%Z = 1%Z -> nth j cell_types 0%Z = 1%Z ->
      let d := distance_between cell_points i j in
      let magnitude := Rmax ((target_spring_length - d) * (1 / 10)) (- critical_length_delta) in
      mget p0 force i j = pscale magnitude (direction cell_points i j) /\
      (nth i cell_points p0 <> nth j cell_points p0 ->
       (d < target_spring_length)%R ->
       exists k : R,
         (0 < k)%R /\ mget p0 force i j = pscale k (displacement cell_points i j)).
Proof.
  destruct (force_entries_formula num_cells target_spring_length critical_length_delta
              cell_points cell_types target_areas voronoi_vertices adjacency_matrix)
    as (w & force & distance & Hw & Hcall & Hentries).
  exists force, distance. split; [exact Hcall|].
  intros i j Hi Hj Hij Hti Htj d magnitude.
  destruct (Hentries i j Hi Hj) as [_ Fij]. rewrite Hij in Fij.
  assert (HP : mget f0 (pressure_matrix w) i j = 0%R).
  { rewrite assemble_rows_returns in Hw. injection Hw as <-.
    destruct (Nat.le_ge_cases i j) as [Hle|Hle].
    - fold (final_work num_cells target_spring_length cell_points cell_types target_areas
                       voronoi_vertices adjacency_matrix).
      rewrite pressure_entry by assumption.
      unfold writes. rewrite Hti, Htj. reflexivity.
    - rewrite (pressure_symmetric_rows num_cells target_spring_length cell_points cell_types
                 target_areas voronoi_vertices adjacency_matrix (seq 0 num_cells) i j).
      fold (final_work num_cells target_spring_length cell_points cell_types target_areas
                       voronoi_vertices adjacency_matrix).
      rewrite pressure_entry by assumption.
      unfold writes. rewrite Hti, Htj. reflexivity. }
  assert (Hforce : mget p0 force i j = pscale magnitude (direction cell_points i j)).
  { rewrite Fij, HP. unfold damped. rewrite Hti. cbn [Z.eqb Pos.eqb].
    rewrite clip_lower_exact. f_equal.
    unfold magnitude, d, tenth. cbn [fadd fmul fsub fdiv fneg of_int exact]. ring. }
  split; [exact Hforce|].
  intros Hapart Hclose.
  assert (Hd : (0 < d)%R) by (apply distance_between_positive, Hapart).
  exists (magnitude / d)%R. split.
  - apply Rdiv_lt_0_compat; [|exact Hd].
    apply Rlt_le_trans with ((target_spring_length - d) * (1 / 10))%R; [lra|].
    apply Rmax_l.
  - rewrite Hforce. unfold direction, pscale, pdiv. fold d. simpl.
    unfold Rdiv. f_equal; ring.
Qed.

(** ** More on [calculate_boundary_reflection], in exact arithmetic *)

Section ReflectionMore.

Local Open Scope R_scope.

Lemma point_eq_dec (p q : point R) : {p = q} + {p <> q}.
Proof.
  destruct p as [x y], q as [x' y'].
  destruct (Req_dec_T x x') as [->|Hx]; [|right; intros E; apply Hx; congruence].
  destruct (Req_dec_T y y') as [->|Hy]; [left; reflexivity|].
  right. intros E. apply Hy. congruence.
Qed.

Lemma norm_self (a : point R) : norm (psub a a) = 0.
Proof.
  unfold norm, dot, psub. simpl.
  replace ((fst a - fst a) * (fst a - fst a) + (snd a - snd a) * (snd a - snd a)) with 0 by ring.
  apply sqrt_0.
Qed.

Lemma reflection_at_endpoint (empty_like : point R -> point R) (a b c : point R) :
  c = a \/ c = b ->
  calculate_boundary_reflection empty_like a b c = Raises ZeroDivisionError.
Proof.
  intros H. rewrite reflection_by_cosine. unfold angle_cosine, py_div.
  cbn [fis_zero fmul exact]. unfold Exact.is_zero.
  destruct (Req_dec_T _ 0) as [_|N]; [reflexivity|].
  exfalso. apply N. destruct H as [-> | ->]; rewrite norm_self; ring.
Qed.

(** What a call that reflects tells about its arguments. *)
Lemma reflection_true_inv (empty_like : point R -> point R) (a b c r : point R) :
  calculate_boundary_reflection empty_like a b c = Returns (true, r) ->
  c <> a /\ c <> b /\ a <> b /\ dot (psub c a) (psub c b) < 0 /\ r = mirrored a b c.
Proof.
  intros H.
  destruct (point_eq_dec c a) as [Ea|Ha].
  { rewrite reflection_at_endpoint in H by (left; exact Ea). discriminate. }
  destruct (point_eq_dec c b) as [Eb|Hb].
  { rewrite reflection_at_endpoint in H by (right; exact Eb). discriminate. }
  destruct (Rlt_le_dec (dot (psub c a) (psub c b)) 0) as [Hd|Hd].
  - split; [exact Ha|]. split; [exact Hb|]. split; [|split; [exact Hd|]].
    + intros <-. pose proof (dot_self_nonneg (psub c a)). lra.
    + apply (reflected_is_mirrored _ _ _ _ H).
  - rewrite (reflection_not_obtuse empty_like Ha Hb Hd) in H. discriminate.
Qed.

(** The identity of Thales: the dot product is the squared distance to the
    midpoint of the edge less the squared half length of the edge. *)
Lemma dot_midpoint (a b c : point R) :
  dot (psub c a) (psub c b)
  = (fst c - (fst a + fst b) / 2) * (fst c - (fst a + fst b) / 2)
    + (snd c - (snd a + snd b) / 2) * (snd c - (snd a + snd b) / 2)
    - ((fst b - fst a) * (fst b - fst a) + (snd b - snd a) * (snd b - snd a)) / 4.
Proof. unfold dot, psub. simpl. field. Qed.

End ReflectionMore.

(** The call raises exactly when the point is an end of the edge. *)
Theorem reflection_raises_at_the_ends
        (empty_like : point R -> point R) (a b c : point R) :
  calculate_boundary_reflection empty_like a b c = Raises ZeroDivisionError
  <-> (c = a \/ c = b).
Proof.
  split; [|apply reflection_at_endpoint].
  intros H.
  destruct (point_eq_dec c a) as [Ea|Ha]; [left; exact Ea|].
  destruct (point_eq_dec c b) as [Eb|Hb]; [right; exact Eb|].
  exfalso.
  destruct (Rlt_le_dec (dot (psub c a) (psub c b)) 0) as [Hd|Hd].
  - rewrite (reflection_obtuse empty_like Ha Hb Hd) in H. discriminate.
  - rewrite (reflection_not_obtuse empty_like Ha Hb Hd) in H. discriminate.
Qed.

(** The points that are reflected are those strictly inside the circle of
    which the edge is a diameter, on either side of the edge. *)
Theorem reflected_iff_inside_circle
        (empty_like : point R -> point R) (a b c : point R) :
  (exists r, calculate_boundary_reflection empty_like a b c = Returns (true, r))
  <-> ((fst c - (fst a + fst b) / 2) * (fst c - (fst a + fst b) / 2)
       + (snd c - (snd a + snd b) / 2) * (snd c - (snd a + snd b) / 2)
       < ((fst b - fst a) * (fst b - fst a) + (snd b - snd a) * (snd b - snd a)) / 4)%R.
Proof.
  pose proof (dot_midpoint a b c) as Hdot.
  split.
  - intros [r H]. apply reflection_true_inv in H.
    destruct H as (_ & _ & _ & Hd & _). lra.
  - intros Hin.
    assert (Hd : (dot (psub c a) (psub c b) < 0)%R) by lra.
    assert (Ha : c <> a).
    { intros ->. rewrite (dot_midpoint a b a) in Hd.
      unfold dot, psub in *. simpl in *. nra. }
    assert (Hb : c <> b).
    { intros ->. unfold dot, psub in Hd. simpl in Hd. nra. }
    exists (mirrored a b c). apply reflection_obtuse; assumption.
Qed.

(** An edge of length zero reflects nothing. *)
Theorem degenerate_edge_never_reflects
        (empty_like : point R -> point R) (a c : point R) :
  (c = a -> calculate_boundary_reflection empty_like a a c = Raises ZeroDivisionError) /\
  (c <> a ->
   calculate_boundary_reflection empty_like a a c = Returns (false, empty_like a)).
Proof.
  split.
  - intros H. apply reflection_at_endpoint. left. exact H.
  - intros H. apply reflection_not_obtuse; try exact H. apply dot_self_nonneg.
Qed.

Section ReflectionIsometry.

Local Open Scope R_scope.

(** The mirror image by coordinates, for an edge of squared length [E] and
    [k = (c - a) . (b - a) / E]. *)
Lemma mirrored_by_parameter (a b c : point R) (k : R) :
  a <> b ->
  k * dot (psub b a) (psub b a) = dot (psub c a) (psub b a) ->
  mirrored a b c = (2 * (fst a + k * (fst b - fst a)) - fst c,
                    2 * (snd a + k * (snd b - snd a)) - snd c).
Proof.
  intros Hab Hk. rewrite (mirrored_coordinates c Hab).
  assert (Hn := norm_nonzero Hab). rewrite norm_norm.
  assert (HE : dot (psub b a) (psub b a) <> 0).
  { rewrite <- norm_norm. apply Rmult_integral_contrapositive. split; exact Hn. }
  replace (dot (psub c a) (psub b a) / dot (psub b a) (psub b a)) with k; [reflexivity|].
  rewrite <- Hk. field. exact HE.
Qed.

Lemma edge_parameter (a b c : point R) :
  a <> b ->
  exists k, k * dot (psub b a) (psub b a) = dot (psub c a) (psub b a).
Proof.
  intros Hab. assert (Hn := norm_nonzero Hab).
  assert (HE : dot (psub b a) (psub b a) <> 0).
  { rewrite <- norm_norm. apply Rmult_integral_contrapositive. split; exact Hn. }
  exists (dot (psub c a) (psub b a) / dot (psub b a) (psub b a)). field. exact HE.
Qed.

Lemma dot_zero_at (a b r : point R) :
  r = a \/ r = b -> dot (psub r a) (psub r b) = 0.
Proof. intros [-> | ->]; unfold dot, psub; simpl; ring. Qed.

End ReflectionIsometry.

(** Reflecting twice gives the point back: the image of a reflected point
    is reflected too, to the point itself, and it is as far from each end of
    the edge as the point. *)
Theorem reflection_involution
        (empty_like : point R -> point R) (a b c r : point R) :
  calculate_boundary_reflection empty_like a b c = Returns (true, r) ->
  calculate_boundary_reflection empty_like a b r = Returns (true, c) /\
  norm (psub r a) = norm (psub c a) /\
  norm (psub r b) = norm (psub c b).
Proof.
  intros H. apply reflection_true_inv in H.
  destruct H as (Ha & Hb & Hab & Hd & Hr).
  destruct (edge_parameter c Hab) as [k Hk].
  rewrite (mirrored_by_parameter Hab Hk) in Hr.
  assert (Hz : (k * dot (psub b a) (psub b a) - dot (psub c a) (psub b a) = 0)%R) by lra.
  assert (Hdot : dot (psub r a) (psub r b) = dot (psub c a) (psub c b)).
  { subst r. destruct a as [ax ay], b as [bx by_], c as [cx cy].
    unfold dot, psub in *. simpl in *.
    match goal with
    | |- ?L = ?R =>
        replace L with (R + (4 * k - 2)
                            * (k * ((bx - ax) * (bx - ax) + (by_ - ay) * (by_ - ay))
                               - ((cx - ax) * (bx - ax) + (cy - ay) * (by_ - ay))))%R
          by ring
    end.
    rewrite Hz. ring. }
  assert (Hk' : (k * dot (psub b a) (psub b a) = dot (psub r a) (psub b a))%R).
  { subst r. destruct a as [ax ay], b as [bx by_], c as [cx cy].
    unfold dot, psub in *. simpl in *. lra. }
  assert (Hra : r <> a).
  { intros E. rewrite (dot_zero_at (a := a) (b := b) (or_introl E)) in Hdot. lra. }
  assert (Hrb : r <> b).
  { intros E. rewrite (dot_zero_at (a := a) (b := b) (or_intror E)) in Hdot. lra. }
  split; [|split].
  - rewrite (reflection_obtuse empty_like Hra Hrb) by lra.
    rewrite (mirrored_by_parameter Hab Hk'). subst r.
    destruct c as [cx cy]. simpl. do 2 f_equal; f_equal; ring.
  - unfold norm. f_equal. subst r. destruct a as [ax ay], b as [bx by_], c as [cx cy].
    unfold dot, psub in *. simpl in *.
    match goal with
    | |- ?L = ?R =>
        replace L with (R + (4 * k)
                            * (k * ((bx - ax) * (bx - ax) + (by_ - ay) * (by_ - ay))
                               - ((cx - ax) * (bx - ax) + (cy - ay) * (by_ - ay))))%R
          by ring
    end.
    rewrite Hz. ring.
  - unfold norm. f_equal. subst r. destruct a as [ax ay], b as [bx by_], c as [cx cy].
    unfold dot, psub in *. simpl in *.
    match goal with
    | |- ?L = ?R =>
        replace L with (R + (4 * k - 4)
                            * (k * ((bx - ax) * (bx - ax) + (by_ - ay) * (by_ - ay))
                               - ((cx - ax) * (bx - ax) + (cy - ay) * (by_ - ay))))%R
          by ring
    end.
    rewrite Hz. ring.
Qed.

Lemma reflection_involution_below :
  calculate_boundary_reflection (fun a => a) (0, 0)%R (10, 0)%R (5, 1)%R
  = Returns (true, (5, -1)%R) /\
  norm (psub (5, 1)%R (0, 0)%R) = norm (psub (5, -1)%R (0, 0)%R) /\
  norm (psub (5, 1)%R (10, 0)%R) = norm (psub (5, -1)%R (10, 0)%R).
Proof.
  apply (@reflection_involution (fun a => a) (0, 0)%R (10, 0)%R (5, -1)%R (5, 1)%R).
  apply reflection_below_exact.
Defined.

(** A point of the edge strictly between its ends is reflected to itself. *)
Theorem segment_points_are_fixed
        (empty_like : point R -> point R) (a b : point R) (t : R) :
  a <> b -> (0 < t < 1)%R ->
  let c := padd a (pscale t (psub b a)) in
  calculate_boundary_reflection empty_like a b c = Returns (true, c).
Proof.
  intros Hab Ht c.
  assert (HE : (0 < dot (psub b a) (psub b a))%R).
  { pose proof (norm_positive (a := a) (c := b) (fun E => Hab (eq_sym E))) as Hn.
    rewrite <- norm_norm. apply Rmult_lt_0_compat; exact Hn. }
  assert (Hk : (t * dot (psub b a) (psub b a) = dot (psub c a) (psub b a))%R).
  { unfold c, dot, psub, padd, pscale. simpl. ring. }
  assert (Hd : (dot (psub c a) (psub c b) < 0)%R).
  { replace (dot (psub c a) (psub c b)) with (t * (t - 1) * dot (psub b a) (psub b a))%R
      by (unfold c, dot, psub, padd, pscale; simpl; ring).
    assert (t * (t - 1) < 0)%R by nra. nra. }
  assert (Ha : c <> a).
  { intros E. rewrite (dot_zero_at (a := a) (b := b) (or_introl E)) in Hd. lra. }
  assert (Hb : c <> b).
  { intros E. rewrite (dot_zero_at (a := a) (b := b) (or_intror E)) in Hd. lra. }
  rewrite (reflection_obtuse empty_like Ha Hb Hd).
  rewrite (mirrored_by_parameter Hab Hk).
  unfold c, padd, pscale, psub. simpl. do 2 f_equal; f_equal; ring.
Qed.

Lemma segment_points_are_fixed_middle :
  calculate_boundary_reflection (fun a => a) (0, 0)%R (10, 0)%R
    (padd (0, 0)%R (pscale (1 / 2)%R (psub (10, 0)%R (0, 0)%R)))
  = Returns (true, padd (0, 0)%R (pscale (1 / 2)%R (psub (10, 0)%R (0, 0)%R))).
Proof.
  apply (@segment_points_are_fixed (fun a => a) (0, 0)%R (10, 0)%R (1 / 2)%R).
  - apply pair_neq_fst. lra.
  - lra.
Defined.

(** ** More on [hexagonal_grid_layout] *)

Lemma map_seq_from {A : Type} (f : nat -> A) (n : nat) :
  forall s, map f (seq s n) = map (fun k => f (s + k)%nat) (seq 0 n).
Proof.
  induction n as [|n IH]; intros s; simpl; [reflexivity|].
  rewrite Nat.add_0_r. f_equal.
  rewrite IH, <- seq_shift, map_map. apply map_ext.
  intros k. f_equal. lia.
Qed.

Lemma range_app (lo mid hi : Z) :
  (lo <= mid <= hi)%Z -> range lo hi = range lo mid ++ range mid hi.
Proof.
  intros H. unfold range.
  replace (Z.to_nat (hi - lo)) with (Z.to_nat (mid - lo) + Z.to_nat (hi - mid))%nat by lia.
  rewrite seq_app, map_app. f_equal.
  rewrite map_seq_from. apply map_ext. intros k. lia.
Qed.

Section LayoutPrefix.

Context {F : Type} {SF : Scalar F} {TF : Trig F}.

(** A larger ring count appends rings. *)
Lemma layout_prefix (num_cells num_cells' x y : Z) :
  (num_rings num_cells <= num_rings num_cells')%Z ->
  exists points rest,
    hexagonal_grid_layout num_cells x y = Returns points /\
    hexagonal_grid_layout num_cells' x y = Returns (points ++ rest).
Proof.
  intros Hr. rewrite !hexagonal_grid_layout_returns.
  set (cx := fdiv (of_int x) (of_int 2)). set (cy := fdiv (of_int y) (of_int 2)).
  set (r := num_rings num_cells) in *. set (r' := num_rings num_cells') in *.
  exists ((cx, cy) :: flat_map (ring cx cy) (range 1 (r + 1))).
  exists (flat_map (ring cx cy) (range (Z.max 1 (r + 1)) (r' + 1))).
  split; [reflexivity|]. f_equal. cbn [app]. f_equal.
  rewrite <- flat_map_app. f_equal.
  destruct (Z.le_gt_cases 1 (r + 1)) as [H|H].
  - rewrite Z.max_r by exact H. apply range_app. lia.
  - rewrite Z.max_l by lia.
    unfold range at 2. replace (Z.to_nat (r + 1 - 1)) with 0%nat by lia. reflexivity.
Qed.

End LayoutPrefix.

Lemma num_rings_exact_monotone (n m : Z) :
  (- max_cells <= n <= m)%Z -> (m <= max_cells)%Z ->
  (num_rings (F:=R) n <= num_rings (F:=R) m)%Z.
Proof.
  intros H Hm. rewrite !num_rings_exact_unfold by lia. apply Zfloor_le.
  assert (Hs : (sqrt (IZR (12 * n - 3)) <= sqrt (IZR (12 * m - 3)))%R).
  { apply sqrt_le_1_alt, IZR_le. lia. }
  lra.
Qed.



(** Asking for more cells only appends points, in exact arithmetic and for
    counts of absolute value at most [768614336404564650] (so that
    [12 * num_cells - 3] is an int64): the layout for [num_cells] is a
    prefix of the layout for any larger count. *)
Theorem layout_grows_by_appending (num_cells num_cells' x y : Z) :
  (- max_cells <= num_cells)%Z ->
  (num_cells <= num_cells')%Z ->
  (num_cells' <= max_cells)%Z ->
  exists points rest : list (point R),
    hexagonal_grid_layout (F:=R) num_cells x y = Returns points /\
    hexagonal_grid_layout (F:=R) num_cells' x y = Returns (points ++ rest).
Proof.
  intros Hlo H Hhi. apply layout_prefix, num_rings_exact_monotone; [split|]; assumption.
Qed.

Lemma layout_grows_from_seven_to_nineteen :
  exists points rest : list (point R),
    hexagonal_grid_layout (F:=R) 7 10 10 = Returns points /\
    hexagonal_grid_layout (F:=R) 19 10 10 = Returns (points ++ rest).
Proof. apply (@layout_grows_by_appending 7 19 10 10); unfold max_cells; lia. Defined.

Lemma abs_le_hypotenuse (u v n : R) :
  (0 <= n)%R -> (n * n = u * u + v * v)%R -> (Rabs u <= n)%R /\ (Rabs v <= n)%R.
Proof.
  intros Hn H.
  pose proof (Rle_0_sqr u) as Hu. pose proof (Rle_0_sqr v) as Hv. unfold Rsqr in Hu, Hv.
  assert (G : forall w, (w * w <= n * n)%R -> (Rabs w <= n)%R).
  { intros w Hw. apply Rabs_le. split.
    - destruct (Rle_lt_dec (- n) w) as [L|L]; [exact L|]. exfalso.
      assert (0 < (- w - n) * (- w + n))%R by (apply Rmult_lt_0_compat; lra). lra.
    - destruct (Rle_lt_dec w n) as [L|L]; [exact L|]. exfalso.
      assert (0 < (w - n) * (w + n))%R by (apply Rmult_lt_0_compat; lra). lra. }
  split; apply G; lra.
Qed.

(** Every point of the layout, in exact arithmetic, is within the ring
    count of the center, in distance and so in each coordinate. *)
Theorem layout_within_disc (num_cells x y : Z) :
  exists points : list (point R),
    hexagonal_grid_layout (F:=R) num_cells x y = Returns points /\
    forall p,
      In p points ->
      let c := ((IZR x / 2)%R, (IZR y / 2)%R) in
      let r := IZR (Z.max 0 (num_rings (F:=R) num_cells)) in
      (norm (psub p c) <= r)%R /\
      (Rabs (fst p - fst c) <= r)%R /\ (Rabs (snd p - snd c) <= r)%R.
Proof.
  eexists. split; [apply hexagonal_grid_layout_returns|].
  intros p Hp c r.
  assert (Hnorm : (norm (psub p c) <= r)%R).
  { destruct Hp as [<- | Hp].
    - change (fdiv (of_int x) (of_int 2), fdiv (of_int y) (of_int 2)) with c.
      rewrite norm_self. apply IZR_le. lia.
    - apply in_flat_map in Hp. destruct Hp as [i [Hi Hp]].
      apply In_range in Hi. unfold ring in Hp. apply in_map_iff in Hp.
      destruct Hp as [j [<- _]].
      match goal with
      | |- (norm ?q <= _)%R =>
          replace (norm q) with (IZR i)
            by (symmetry; apply (ring_radius (IZR x / 2) (IZR y / 2) j (i := i)); lia)
      end.
      apply IZR_le. lia. }
  split; [exact Hnorm|].
  assert (Hsq : (norm (psub p c) * norm (psub p c) = dot (psub p c) (psub p c))%R)
    by apply norm_norm.
  assert (H0 : (0 <= norm (psub p c))%R) by apply sqrt_pos.
  unfold dot, psub in Hsq. simpl in Hsq.
  destruct (abs_le_hypotenuse H0 Hsq) as [Hu Hv].
  simpl. split; eapply Rle_trans; eauto.
Qed.

(** ** [polygon_perimeter], and more on [polygon_area] *)

Section Loops.

Context {F : Type} {SF : Scalar F}.

(** The length of the edge from [p] to [q], as the loop body computes it. *)
Definition edge_length (p q : point F) : F :=
  let dx := fsub (fst q) (fst p) in
  let dy := fsub (snd q) (snd p) in
  fsqrt (fadd (fmul dx dx) (fmul dy dy)).

(** The edges of the closed loop, by index and by pairing each vertex with
    its successor. *)
Lemma loop_edges {B : Type} (g : point F -> point F -> B) (vertices : list (point F)) :
  map (fun i => g (nth i vertices p0) (nth ((i + 1) mod length vertices) vertices p0))
      (seq 0 (length vertices))
  = map (fun pq => g (fst pq) (snd pq)) (combine vertices (rotated vertices)).
Proof.
  assert (Hlen : length (combine vertices (rotated vertices)) = length vertices).
  { rewrite length_combine, rotated_length. apply Nat.min_id. }
  apply nth_ext with (d := g p0 p0) (d' := g p0 p0).
  - rewrite !length_map, length_seq. symmetry. exact Hlen.
  - intros i Hi. rewrite length_map, length_seq in Hi.
    rewrite (nth_map_within _ _ (g p0 p0) 0%nat) by (rewrite length_seq; exact Hi).
    rewrite (nth_map_within _ _ (g p0 p0) (p0, p0)) by (rewrite Hlen; exact Hi).
    rewrite seq_nth by exact Hi.
    rewrite combine_nth by (symmetry; apply rotated_length).
    cbn [fst snd]. rewrite nth_rotated by exact Hi. reflexivity.
Qed.

Lemma perimeter_loop (vertices : list (point F)) (l : list nat) :
  length vertices <> 0%nat ->
  forall total,
    for_each l
      (fun i total =>
         j <- py_mod (i + 1) (length vertices) ;;
         let dx := fsub (fst (nth j vertices p0)) (fst (nth i vertices p0)) in
         let dy := fsub (snd (nth j vertices p0)) (snd (nth i vertices p0)) in
         Returns (fadd total (fsqrt (fadd (fmul dx dx) (fmul dy dy)))))
      total
    = Returns
        (fold_left fadd
           (map (fun i => edge_length (nth i vertices p0)
                                      (nth ((i + 1) mod length vertices) vertices p0)) l)
           total).
Proof.
  intros Hn. induction l as [|i l IH]; intros total; [reflexivity|].
  cbn [for_each map fold_left]. unfold py_mod at 1.
  destruct (Nat.eqb_spec (length vertices) 0) as [E|_]; [contradiction|].
  cbn [bind]. rewrite IH. reflexivity.
Qed.

(** [polygon_perimeter] never raises: the remainder by the number of
    vertices is inside the loop over the vertices.  It returns the sum of
    the lengths of the edges of the closed loop. *)
Lemma polygon_perimeter_returns (vertices : list (point F)) :
  polygon_perimeter vertices
  = Returns (fold_left fadd
               (map (fun pq => edge_length (fst pq) (snd pq))
                    (combine vertices (rotated vertices)))
               f0).
Proof.
  unfold polygon_perimeter. destruct vertices as [|h t] eqn:E; [reflexivity|].
  rewrite <- E. rewrite perimeter_loop by (rewrite E; discriminate).
  rewrite loop_edges. reflexivity.
Qed.

End Loops.

(** *** Sums around a loop, in exact arithmetic *)

Section LoopSums.

Local Open Scope R_scope.

Variable g : point R -> point R -> R.

(** The sum of [g] over the consecutive pairs of a chain of points. *)
Fixpoint path_sum (l : list (point R)) : R :=
  match l with
  | [] => 0
  | a :: t => match t with
              | [] => 0
              | b :: _ => g a b + path_sum t
              end
  end.

(** The chain that goes around the loop and back to its first point. *)
Definition closed (vertices : list (point R)) : list (point R) :=
  match vertices with
  | [] => []
  | h :: t => h :: t ++ [h]
  end.

Definition loop_sum (vertices : list (point R)) : R := path_sum (closed vertices).

Lemma path_sum_snoc (l : list (point R)) (a b : point R) :
  path_sum (l ++ [a; b]) = path_sum (l ++ [a]) + g a b.
Proof.
  induction l as [|c l IH].
  - simpl. ring.
  - destruct l as [|c' l].
    + simpl. ring.
    + change (path_sum ((c :: c' :: l) ++ [a; b]))
        with (g c c' + path_sum ((c' :: l) ++ [a; b])).
      change (path_sum ((c :: c' :: l) ++ [a]))
        with (g c c' + path_sum ((c' :: l) ++ [a])).
      rewrite IH. ring.
Qed.

Lemma pairs_path_sum (t : list (point R)) :
  forall a h,
    fold_right Rplus 0 (map (fun pq => g (fst pq) (snd pq)) (combine (a :: t) (t ++ [h])))
    = path_sum (a :: t ++ [h]).
Proof.
  induction t as [|b t IH]; intros a h.
  - reflexivity.
  - change (combine (a :: b :: t) ((b :: t) ++ [h]))
      with ((a, b) :: combine (b :: t) (t ++ [h])).
    cbn [map fold_right fst snd]. rewrite IH. reflexivity.
Qed.

Lemma pairs_loop_sum (vertices : list (point R)) :
  fold_left fadd (map (fun pq => g (fst pq) (snd pq)) (combine vertices (rotated vertices))) f0
  = loop_sum vertices.
Proof.
  rewrite np_sum_exact. unfold loop_sum, closed, rotated.
  destruct vertices as [|h t].
  - unfold f0. simpl. ring.
  - rewrite pairs_path_sum. unfold f0. simpl of_int. ring.
Qed.

(** The first vertex of the loop does not matter. *)
Lemma loop_sum_rotated (vertices : list (point R)) :
  loop_sum (rotated vertices) = loop_sum vertices.
Proof.
  unfold loop_sum. destruct vertices as [|h [|h2 t]]; try reflexivity.
  cbn [rotated closed app]. rewrite <- app_assoc. cbn [app].
  change (h2 :: t ++ [h; h2]) with ((h2 :: t) ++ [h; h2]).
  rewrite path_sum_snoc.
  change (path_sum (h :: h2 :: t ++ [h])) with (g h h2 + path_sum ((h2 :: t) ++ [h])).
  ring.
Qed.

Hypothesis g_symmetric : forall a b, g b a = g a b.

Lemma path_sum_rev (l : list (point R)) : forall a, path_sum (rev (a :: l)) = path_sum (a :: l).
Proof.
  induction l as [|b l IH]; intros a.
  - reflexivity.
  - change (rev (a :: b :: l)) with (rev (b :: l) ++ [a]).
    cbn [rev]. rewrite <- app_assoc. cbn [app].
    rewrite path_sum_snoc.
    change (rev l ++ [b]) with (rev (b :: l)). rewrite IH.
    change (path_sum (a :: b :: l)) with (g a b + path_sum (b :: l)).
    rewrite g_symmetric. ring.
Qed.

(** Nor does the direction, for a symmetric [g]. *)
Lemma loop_sum_rev (vertices : list (point R)) :
  loop_sum (rev vertices) = loop_sum vertices.
Proof.
  unfold loop_sum. destruct vertices as [|h t]; [reflexivity|].
  destruct (rev (h :: t)) as [|h' t'] eqn:E.
  - apply (f_equal (@length _)) in E. rewrite length_rev in E. discriminate.
  - cbn [closed].
    assert (E1 : path_sum (h' :: t' ++ [h']) = path_sum (h' :: t') + g h h').
    { change (h' :: t' ++ [h']) with ((h' :: t') ++ [h']). rewrite <- E.
      cbn [rev]. rewrite <- app_assoc. cbn [app]. apply path_sum_snoc. }
    assert (E2 : path_sum (rev ((h :: t) ++ [h])) = g h h' + path_sum (h' :: t')).
    { rewrite rev_app_distr. cbn [rev app]. change (rev t ++ [h]) with (rev (h :: t)).
      rewrite E. reflexivity. }
    assert (E3 : path_sum (rev ((h :: t) ++ [h])) = path_sum ((h :: t) ++ [h])).
    { cbn [app]. apply path_sum_rev. }
    cbn [app] in E2, E3. rewrite E1, <- E3, E2. ring.
Qed.

End LoopSums.

Section LoopSumsMore.

Local Open Scope R_scope.

Lemma path_sum_ext (g g' : point R -> point R -> R) (l : list (point R)) :
  (forall a b, g a b = g' a b) -> path_sum g l = path_sum g' l.
Proof.
  intros H. induction l as [|a [|b l] IH]; try reflexivity.
  change (g a b + path_sum g (b :: l) = g' a b + path_sum g' (b :: l)).
  rewrite IH, H. reflexivity.
Qed.

Lemma path_sum_map (g : point R -> point R -> R) (f : point R -> point R)
      (l : list (point R)) :
  path_sum g (map f l) = path_sum (fun a b => g (f a) (f b)) l.
Proof.
  induction l as [|a [|b l] IH]; try reflexivity.
  change (g (f a) (f b) + path_sum g (map f (b :: l))
          = g (f a) (f b) + path_sum (fun a b => g (f a) (f b)) (b :: l)).
  rewrite IH. reflexivity.
Qed.

Lemma path_sum_scale (g : point R -> point R -> R) (k : R) (l : list (point R)) :
  path_sum (fun a b => k * g a b) l = k * path_sum g l.
Proof.
  induction l as [|a [|b l] IH]; try (simpl; ring).
  change (k * g a b + path_sum (fun a b => k * g a b) (b :: l)
          = k * (g a b + path_sum g (b :: l))).
  rewrite IH. ring.
Qed.

Lemma path_sum_nonneg (g : point R -> point R -> R) (l : list (point R)) :
  (forall a b, 0 <= g a b) -> 0 <= path_sum g l.
Proof.
  intros H. induction l as [|a [|b l] IH]; try (simpl; lra).
  change (0 <= g a b + path_sum g (b :: l)). pose proof (H a b). lra.
Qed.

Lemma last_cons_default {A : Type} (l : list A) :
  forall b a : A, last (b :: l) a = last l b.
Proof.
  induction l as [|c l IH]; intros b a; [reflexivity|].
  change (last (b :: c :: l) a) with (last (c :: l) a).
  rewrite (IH c a), (IH c b). reflexivity.
Qed.

(** A term that is a difference [h a - h b] adds up, along a chain, to the
    difference between its ends. *)
Lemma path_sum_telescope (g : point R -> point R -> R) (h : point R -> R)
      (l : list (point R)) :
  forall a,
    path_sum (fun a b => g a b + (h a - h b)) (a :: l)
    = path_sum g (a :: l) + (h a - h (last l a)).
Proof.
  induction l as [|b l IH]; intros a.
  - simpl. ring.
  - change (g a b + (h a - h b) + path_sum (fun a b => g a b + (h a - h b)) (b :: l)
            = g a b + path_sum g (b :: l) + (h a - h (last (b :: l) a))).
    rewrite IH.
    rewrite (last_cons_default l b a). ring.
Qed.

Lemma closed_map (f : point R -> point R) (vertices : list (point R)) :
  closed (map f vertices) = map f (closed vertices).
Proof.
  destruct vertices as [|h t]; [reflexivity|].
  cbn [closed map]. rewrite map_app. reflexivity.
Qed.

Lemma rotated_map (f : point R -> point R) (vertices : list (point R)) :
  rotated (map f vertices) = map f (rotated vertices).
Proof.
  destruct vertices as [|h t]; [reflexivity|].
  cbn [rotated map]. rewrite map_app. reflexivity.
Qed.

(** A loop sum whose term changes by a difference [h a - h b] does not
    change. *)
Lemma loop_sum_telescope (g : point R -> point R -> R) (h : point R -> R)
      (vertices : list (point R)) :
  loop_sum (fun a b => g a b + (h a - h b)) vertices = loop_sum g vertices.
Proof.
  unfold loop_sum. destruct vertices as [|p t]; [reflexivity|].
  cbn [closed]. rewrite path_sum_telescope, last_last. ring.
Qed.

(** [polygon_perimeter] and [polygon_area] as loop sums. *)
Lemma polygon_perimeter_loop_sum (vertices : list (point R)) :
  polygon_perimeter vertices = Returns (loop_sum edge_length vertices).
Proof. rewrite polygon_perimeter_returns, pairs_loop_sum. reflexivity. Qed.

Lemma polygon_area_loop_sum (vertices : list (point R)) :
  polygon_area vertices = 1 / 2 * Rabs (loop_sum edge_term vertices).
Proof.
  rewrite polygon_area_signed_sum. unfold signed_sum, np_sum.
  rewrite pairs_loop_sum. reflexivity.
Qed.

Lemma edge_length_swap (a b : point R) : edge_length b a = edge_length a b.
Proof. unfold edge_length. simpl. f_equal. ring. Qed.

Lemma edge_length_nonneg (a b : point R) : 0 <= edge_length a b.
Proof. unfold edge_length. simpl. apply sqrt_pos. Qed.

Lemma edge_length_translate (t a b : point R) :
  edge_length (padd t a) (padd t b) = edge_length a b.
Proof. unfold edge_length, padd. simpl. f_equal. ring. Qed.

Lemma edge_term_translate (t a b : point R) :
  edge_term (padd t a) (padd t b)
  = edge_term a b + (edge_term a t - edge_term b t).
Proof. unfold edge_term, padd. simpl. ring. Qed.

Lemma edge_length_scale (k : R) (a b : point R) :
  edge_length (pscale k a) (pscale k b) = Rabs k * edge_length a b.
Proof.
  unfold edge_length, pscale. simpl.
  replace ((k * fst b - k * fst a) * (k * fst b - k * fst a) +
           (k * snd b - k * snd a) * (k * snd b - k * snd a))
    with (Rsqr k * ((fst b - fst a) * (fst b - fst a) + (snd b - snd a) * (snd b - snd a)))
    by (unfold Rsqr; ring).
  rewrite sqrt_mult_alt by apply Rle_0_sqr.
  rewrite sqrt_Rsqr_abs. reflexivity.
Qed.

Lemma edge_term_scale (k : R) (a b : point R) :
  edge_term (pscale k a) (pscale k b) = k * k * edge_term a b.
Proof. unfold edge_term, pscale. simpl. ring. Qed.

End LoopSumsMore.

(** [polygon_perimeter] never raises, also on no vertex at all: the
    remainder by the number of vertices is taken inside the loop over the
    vertices.  It returns the sum, from the left, of the lengths of the
    edges from each vertex to the next, the last edge going back to the first
    vertex; for the unit square in binary64 that is [4.0]. *)
Theorem polygon_perimeter_sums_the_edges :
  (forall (F : Type) (SF : Scalar F) (vertices : list (point F)),
      polygon_perimeter vertices
      = Returns (fold_left fadd
                   (map (fun i => edge_length (nth i vertices p0)
                                              (nth ((i + 1) mod length vertices) vertices p0))
                        (seq 0 (length vertices)))
                   f0)) /\
  polygon_perimeter unit_square = Returns 4%float /\
  polygon_perimeter (F:=float) [] = Returns 0%float.
Proof.
  split; [|split].
  - intros F SF vertices. rewrite polygon_perimeter_returns, loop_edges. reflexivity.
  - vm_compute. reflexivity.
  - vm_compute. reflexivity.
Qed.

(** In exact arithmetic the perimeter is not negative and does not depend
    on the direction of the loop, on the vertex it starts from, or on where
    the polygon lies. *)
Theorem polygon_perimeter_symmetries (vertices : list (point R)) (t : point R) :
  exists perimeter : R,
    polygon_perimeter vertices = Returns perimeter /\
    (0 <= perimeter)%R /\
    polygon_perimeter (rev vertices) = Returns perimeter /\
    polygon_perimeter (rotated vertices) = Returns perimeter /\
    polygon_perimeter (map (padd t) vertices) = Returns perimeter.
Proof.
  exists (loop_sum edge_length vertices).
  rewrite !polygon_perimeter_loop_sum.
  split; [reflexivity|]. split; [apply path_sum_nonneg, edge_length_nonneg|].
  split; [|split]; f_equal.
  - apply loop_sum_rev, edge_length_swap.
  - apply loop_sum_rotated.
  - unfold loop_sum. rewrite closed_map, path_sum_map.
    apply path_sum_ext. intros a b. apply edge_length_translate.
Qed.

Lemma polygon_area_translate (vertices : list (point R)) (t : point R) :
  polygon_area (map (padd t) vertices) = polygon_area vertices.
Proof.
  rewrite !polygon_area_loop_sum. do 2 f_equal.
  unfold loop_sum at 1. rewrite closed_map, path_sum_map.
  rewrite (path_sum_ext _ (fun a b => edge_term a b + (edge_term a t - edge_term b t))%R);
    [|intros a b; apply edge_term_translate].
  apply (loop_sum_telescope edge_term (fun a => edge_term a t)).
Qed.

(** In exact arithmetic the area does not depend on the vertex the loop
    starts from or on where the polygon lies. *)
Theorem polygon_area_symmetries (vertices : list (point R)) (t : point R) :
  polygon_area (rotated vertices) = polygon_area vertices /\
  polygon_area (map (padd t) vertices) = polygon_area vertices.
Proof.
  split; [|apply polygon_area_translate].
  rewrite !polygon_area_loop_sum. do 2 f_equal. apply loop_sum_rotated.
Qed.

(** Scaling the polygon by [k], in exact arithmetic, scales the perimeter
    by [|k|] and the area by [k^2]. *)
Theorem polygon_scaling (vertices : list (point R)) (k : R) :
  exists perimeter : R,
    polygon_perimeter vertices = Returns perimeter /\
    polygon_perimeter (map (pscale k) vertices) = Returns (Rabs k * perimeter)%R /\
    polygon_area (map (pscale k) vertices) = (k * k * polygon_area vertices)%R.
Proof.
  exists (loop_sum edge_length vertices).
  rewrite !polygon_perimeter_loop_sum, !polygon_area_loop_sum.
  split; [reflexivity|]. split.
  - f_equal. unfold loop_sum. rewrite closed_map, path_sum_map.
    rewrite (path_sum_ext _ (fun a b => Rabs k * edge_length a b)%R);
      [|intros a b; apply edge_length_scale].
    apply path_sum_scale.
  - unfold loop_sum. rewrite closed_map, path_sum_map.
    rewrite (path_sum_ext _ (fun a b => k * k * edge_term a b)%R);
      [|intros a b; apply edge_term_scale].
    rewrite path_sum_scale, Rabs_mult.
    rewrite (Rabs_right (k * k)) by (apply Rle_ge; pose proof (Rle_0_sqr k) as H; exact H).
    ring.
Qed.

(** Polygons of fewer than three vertices, in exact arithmetic: the area of
    one vertex or two is zero (of no vertex, [polygon_area] is not defined);
    the perimeter is zero for no vertex and for one, and twice the distance
    for two. *)
Theorem degenerate_polygons :
  (forall vertices : list (point R),
      (0 < length vertices < 3)%nat -> polygon_area vertices = 0%R) /\
  polygon_perimeter (F:=R) [] = Returns 0%R /\
  (forall p : point R, polygon_perimeter [p] = Returns 0%R) /\
  (forall p q : point R, polygon_perimeter [p; q] = Returns (2 * edge_length p q)%R).
Proof.
  split; [|split; [|split]].
  - intros vertices Hlen. rewrite polygon_area_loop_sum.
    destruct vertices as [|p [|q [|r l]]]; [simpl in Hlen; lia| | |simpl in Hlen; lia];
      unfold loop_sum, edge_term; simpl.
    + replace (fst p * snd p - snd p * fst p + 0)%R with 0%R by ring.
      rewrite Rabs_R0. ring.
    + replace (fst p * snd q - snd p * fst q + (fst q * snd p - snd q * fst p + 0))%R
        with 0%R by ring.
      rewrite Rabs_R0. ring.
  - rewrite polygon_perimeter_loop_sum. reflexivity.
  - intros p. rewrite polygon_perimeter_loop_sum. f_equal.
    unfold loop_sum, edge_length. simpl.
    replace ((fst p - fst p) * (fst p - fst p) + (snd p - snd p) * (snd p - snd p))%R
      with 0%R by ring.
    rewrite sqrt_0. ring.
  - intros p q. rewrite polygon_perimeter_loop_sum. f_equal.
    unfold loop_sum. cbn [closed app path_sum].
    rewrite (edge_length_swap p q). ring.
Qed.

(** The rectangle of sides [w] and [h] with a corner at [(x, y)], in exact
    arithmetic: the area is [|w| * |h|] and the perimeter [2 (|w| + |h|)]. *)
Theorem rectangle_area_and_perimeter (x y w h : R) :
  let rectangle := [(x, y); ((x + w)%R, y); ((x + w)%R, (y + h)%R); (x, (y + h)%R)] in
  polygon_area rectangle = (Rabs w * Rabs h)%R /\
  polygon_perimeter rectangle = Returns (2 * (Rabs w + Rabs h))%R.
Proof.
  intros rectangle. unfold rectangle. split.
  - rewrite polygon_area_loop_sum. unfold loop_sum, edge_term. simpl.
    match goal with
    | |- (_ * Rabs ?s)%R = _ => replace s with (2 * (w * h))%R by ring
    end.
    rewrite !Rabs_mult, (Rabs_right 2) by lra. lra.
  - rewrite polygon_perimeter_loop_sum. f_equal.
    unfold loop_sum, edge_length. simpl.
    assert (Hs : forall u v : R, (v = 0)%R -> sqrt (u * u + v * v) = Rabs u).
    { intros u v ->. replace (u * u + 0 * 0)%R with (Rsqr u) by (unfold Rsqr; ring).
      apply sqrt_Rsqr_abs. }
    assert (Hs' : forall u v : R, (u = 0)%R -> sqrt (u * u + v * v) = Rabs v).
    { intros u v ->. replace (0 * 0 + v * v)%R with (Rsqr v) by (unfold Rsqr; ring).
      apply sqrt_Rsqr_abs. }
    rewrite (Hs (x + w - x)%R (y - y)%R) by ring.
    rewrite (Hs' (x + w - (x + w))%R (y + h - y)%R) by ring.
    rewrite (Hs (x - (x + w))%R (y + h - (y + h))%R) by ring.
    rewrite (Hs' (x - x)%R (y - (y + h))%R) by ring.
    replace (x + w - x)%R with w by ring.
    replace (y + h - y)%R with h by ring.
    replace (x - (x + w))%R with (- w)%R by ring.
    replace (y - (y + h))%R with (- h)%R by ring.
    rewrite !Rabs_Ropp. ring.
Qed.

(** ** [calculate_force_matrix] and the polygons *)

Lemma rows_result_ext {F : Type} {SF : Scalar F}
      (target_spring_length : F) (cell_points cell_points' : list (point F))
      (cell_types : list Z) (target_areas : list F)
      (voronoi_vertices voronoi_vertices' : list (list (point F)))
      (adjacency_matrix : matrix bool) (l : list nat) :
  (forall i w, In i l ->
     row_result target_spring_length cell_points cell_types target_areas
                voronoi_vertices adjacency_matrix i w
     = row_result target_spring_length cell_points' cell_types target_areas
                  voronoi_vertices' adjacency_matrix i w) ->
  forall w,
    rows_result target_spring_length cell_points cell_types target_areas
                voronoi_vertices adjacency_matrix l w
    = rows_result target_spring_length cell_points' cell_types target_areas
                  voronoi_vertices' adjacency_matrix l w.
Proof.
  induction l as [|i l IH]; intros H w; [reflexivity|].
  cbn [rows_result fold_left]. rewrite (H i w (or_introl eq_refl)).
  apply IH. intros k w' Hk. apply H. right. exact Hk.
Qed.

(** The polygons are read through their areas only, so in exact arithmetic
    their winding direction does not matter: reversing the vertices of
    every polygon gives the same forces and distances. *)
Theorem winding_direction_is_irrelevant
        (num_cells : nat) (target_spring_length critical_length_delta : R)
        (cell_points : list (point R)) (cell_types : list Z) (target_areas : list R)
        (voronoi_vertices : list (list (point R))) (adjacency_matrix : matrix bool) :
  calculate_force_matrix num_cells target_spring_length critical_length_delta
                         cell_points cell_types target_areas
                         (map (@rev (point R)) voronoi_vertices) adjacency_matrix
  = calculate_force_matrix num_cells target_spring_length critical_length_delta
                           cell_points cell_types target_areas voronoi_vertices
                           adjacency_matrix.
Proof.
  unfold calculate_force_matrix. rewrite !assemble_rows_returns.
  rewrite (rows_result_ext (voronoi_vertices' := voronoi_vertices)
                           (cell_points' := cell_points)); [reflexivity|].
  intros i w _. unfold row_result. f_equal. unfold pressure_after.
  destruct (nth i cell_types 0%Z =? 1)%Z; [reflexivity|].
  unfold split_area_difference_of.
  assert (E : nth i (map (@rev (point R)) voronoi_vertices) [] = rev (nth i voronoi_vertices []))
    by exact (map_nth (@rev (point R)) voronoi_vertices [] i).
  rewrite E, polygon_area_rev. reflexivity.
Qed.

(** Moving the whole tissue, cells and polygons, by a vector [t] gives, in
    exact arithmetic, the same forces and distances, for an input of
    matching dimensions. *)
Theorem translation_invariance
        (num_cells : nat) (target_spring_length critical_length_delta : R)
        (cell_points : list (point R)) (cell_types : list Z) (target_areas : list R)
        (voronoi_vertices : list (list (point R))) (adjacency_matrix : matrix bool)
        (t : point R) :
  length cell_points = num_cells ->
  shape num_cells num_cells adjacency_matrix ->
  calculate_force_matrix num_cells target_spring_length critical_length_delta
                         (map (padd t) cell_points) cell_types target_areas
                         (map (map (padd t)) voronoi_vertices) adjacency_matrix
  = calculate_force_matrix num_cells target_spring_length critical_length_delta
                           cell_points cell_types target_areas voronoi_vertices
                           adjacency_matrix.
Proof.
  intros Hlen Hadj. unfold calculate_force_matrix. rewrite !assemble_rows_returns.
  rewrite (rows_result_ext (voronoi_vertices' := voronoi_vertices)
                           (cell_points' := cell_points)); [reflexivity|].
  intros i w Hi. apply in_seq in Hi.
  assert (Hd : differences_of (map (padd t) cell_points) adjacency_matrix i
               = differences_of cell_points adjacency_matrix i).
  { unfold differences_of. apply map_ext_in. intros j Hj.
    unfold neighbours_of, nonzero in Hj. apply filter_In in Hj. destruct Hj as [Hj _].
    apply in_seq in Hj. rewrite (shape_row Hadj) in Hj by lia.
    rewrite !(nth_map_within (padd t) cell_points p0 p0) by lia.
    unfold psub, padd. simpl. f_equal; ring. }
  unfold row_result, springs_of, unit_vectors_of, distances_of. rewrite Hd.
  f_equal. unfold pressure_after.
  destruct (nth i cell_types 0%Z =? 1)%Z; [reflexivity|].
  unfold split_area_difference_of.
  assert (E : nth i (map (map (padd t)) voronoi_vertices) []
              = map (padd t) (nth i voronoi_vertices []))
    by exact (map_nth (map (padd t)) voronoi_vertices [] i).
  rewrite E, polygon_area_translate. reflexivity.
Qed.

Lemma translation_invariance_pair :
  calculate_force_matrix 2 1%R (1 / 2)%R
                         (map (padd (7, -3)%R) [(0, 0); (3, 0)]%R) [0; 0]%Z [2; 3]%R
                         (map (map (padd (7, -3)%R)) [unit_square_exact; unit_square_exact])
                         adjacent_pair
  = calculate_force_matrix 2 1%R (1 / 2)%R [(0, 0); (3, 0)]%R [0; 0]%Z [2; 3]%R
                           [unit_square_exact; unit_square_exact] adjacent_pair.
Proof.
  apply (@translation_invariance 2 1%R (1 / 2)%R [(0, 0); (3, 0)]%R [0; 0]%Z [2; 3]%R
           [unit_square_exact; unit_square_exact] adjacent_pair (7, -3)%R).
  - reflexivity.
  - split; [reflexivity|]. repeat constructor.
Defined.
